(** * Zanobot translation-consistency checkers

    A shallow embedding of the two scripts

      - [check-translations-detailed.py]  (module [Detailed], the exhaustive report)
      - [check-translations.py]           (module [Strict], the strict report)

    and the properties their specification states about them.

    Python [str] values are sequences of Unicode code points, modelled as
    [list N].  Sets of keys are [gset str], dictionaries are [gmap].
    Operations that raise in Python ([list.pop] on an empty list, [d[k]] on a
    missing key, [open] on a missing file) return in the [result] monad. *)

From Stdlib Require Import NArith String Ascii DecimalString.
From stdpp Require Import base option list gmap sets sorting.

#[local] Set Warnings "-clear-no-such-hyp".

Local Open Scope N_scope.

(** ** Python strings *)

Abbreviation str := (list N).

(** A Rocq string literal read as a Python literal (ASCII text only). *)
Definition py (s : string) : str := N_of_ascii <$> list_ascii_of_string s.
Arguments py _%_string.

(** The Unicode character database is not part of the repository: the two
    tables the scripts consult through [str.strip], [\s] and [\w] are taken as
    parameters for the code points outside ASCII. *)
Class UnicodeData := {
  uni_isalnum : N → bool;
  uni_isspace : N → bool
}.

(** A small table used when a property is run on a concrete input. *)
Definition sample_unicode : UnicodeData := {|
  uni_isalnum c := (192 <=? c) && (c <=? 591) && negb (c =? 215) && negb (c =? 247);
  uni_isspace c := (c =? 133) || (c =? 160) || (c =? 8232) || (c =? 12288)
|}.

Section PythonStr.
Context `{UnicodeData}.

(** [Py_UNICODE_ISSPACE]: tab, LF, VT, FF, CR, FS, GS, RS, US and the space
    below 128, the database above. *)
Definition isspace (c : N) : bool :=
  if c <? 128
  then ((9 <=? c) && (c <=? 13)) || ((28 <=? c) && (c <=? 32))
  else uni_isspace c.

Definition isalnum (c : N) : bool :=
  if c <? 128
  then ((48 <=? c) && (c <=? 57)) || ((65 <=? c) && (c <=? 90))
       || ((97 <=? c) && (c <=? 122))
  else uni_isalnum c.

(** The regular-expression class [\w]: alphanumeric or underscore. *)
Definition is_word (c : N) : bool := isalnum c || (c =? 95).

Fixpoint drop_while (p : N → bool) (s : str) : str :=
  match s with
  | c :: s' => if p c then drop_while p s' else s
  | [] => []
  end.

Fixpoint take_while (p : N → bool) (s : str) : str :=
  match s with
  | c :: s' => if p c then c :: take_while p s' else []
  | [] => []
  end.

Definition lstrip (s : str) : str := drop_while isspace s.
Definition rstrip (s : str) : str := reverse (drop_while isspace (reverse s)).
(** [s.strip()] *)
Definition strip (s : str) : str := rstrip (lstrip s).
End PythonStr.

(** [s.startswith(p)] *)
Fixpoint startswith (p s : str) : bool :=
  match p, s with
  | [], _ => true
  | a :: p', b :: s' => (a =? b) && startswith p' s'
  | _ :: _, [] => false
  end.

(** The rest of [s] after the literal [p], when [s] starts with [p]. *)
Fixpoint after_literal (p s : str) : option str :=
  match p, s with
  | [], _ => Some s
  | a :: p', b :: s' => if a =? b then after_literal p' s' else None
  | _ :: _, [] => None
  end.

(** [s.count(c)] for a one-character needle. *)
Fixpoint count (c : N) (s : str) : nat :=
  match s with
  | [] => 0%nat
  | b :: s' => if b =? c then S (count c s') else count c s'
  end.

(** [s.split('\n')]: always at least one piece. *)
Fixpoint split_lines (s : str) : list str :=
  match s with
  | [] => [[]]
  | c :: s' =>
      if c =? 10 then [] :: split_lines s'
      else match split_lines s' with
           | l :: ls => (c :: l) :: ls
           | [] => [[c]]
           end
  end.

(** [sep.join(parts)] *)
Fixpoint join (sep : str) (parts : list str) : str :=
  match parts with
  | [] => []
  | [p] => p
  | p :: ps => p ++ sep ++ join sep ps
  end.

(** [str(n)] for a non-negative integer. *)
Definition str_of_nat (n : nat) : str := py (NilZero.string_of_uint (Nat.to_uint n)).

(** [c * n] *)
Definition repeat_char (c : N) (n : nat) : str := replicate n c.

(** Format specifications [{x:3d}] (right-aligned) and [{x:15s}] (left-aligned). *)
Definition rjust (w : nat) (s : str) : str := replicate (w - length s) 32 ++ s.
Definition ljust (w : nat) (s : str) : str := s ++ replicate (w - length s) 32.

(** ** Exceptions *)

Inductive exn := IndexError | KeyError | FileNotFoundError.

Inductive result (A : Type) :=
| Ok (a : A)
| Raise (e : exn).
Arguments Ok {A} a.
Arguments Raise {A} e.

Definition result_bind {A B} (m : result A) (k : A → result B) : result B :=
  match m with
  | Ok a => k a
  | Raise e => Raise e
  end.

Notation "x ←! m ; k" := (result_bind m (fun x => k))
  (at level 20, m at level 100, k at level 200, right associativity,
   format "x  ←!  m ;  '/' k").
Notation "' p ←! m ; k" := (result_bind m (fun x => let 'p := x in k))
  (at level 20, p pattern, m at level 100, k at level 200, right associativity).

(** [for x in xs: body] over a state that each iteration may update or abort. *)
Fixpoint for_each {A S} (body : S → A → result S) (xs : list A) (st : S) : result S :=
  match xs with
  | [] => Ok st
  | x :: xs' => st' ←! body st x; for_each body xs' st'
  end.

(** [l.pop()]: removes the last item, [IndexError] on an empty list. *)
Definition list_pop {A} (l : list A) : result (list A) :=
  match l with
  | [] => Raise IndexError
  | _ :: _ => Ok (removelast l)
  end.

(** ** The two regular expressions *)

Section Regex.
Context `{UnicodeData}.

(** [.*] (with DOTALL) followed by the literal [};], as matched at the
    start of [s]: the longest stretch first, giving characters back until
    [};] follows.  Returns the text taken by [.*]. *)
Fixpoint dotall_then_close (s : str) : option str :=
  match s with
  | [] => None
  | c :: s' =>
      match dotall_then_close s' with
      | Some body => Some (c :: body)
      | None => if startswith (py "};") s then Some [] else None
      end
  end.

(** [export const \w+: TranslationDict = ({.*});] anchored at the start of
    [s]; the result is group 1.  [\w+] takes the whole run of word
    characters: the colon that must follow is not a word character, so a
    shorter run never matches. *)
Definition export_at (s : str) : option str :=
  rest ← after_literal (py "export const ") s;
  let name := take_while is_word rest in
  let rest := drop_while is_word rest in
  if bool_decide (name = []) then None else
  rest ← after_literal (py ": TranslationDict = {") rest;
  body ← dotall_then_close rest;
  Some (py "{" ++ body ++ py "}").

(** [re.search(r'export const \w+: TranslationDict = ({.*});', content,
    re.DOTALL)]: the leftmost position at which the pattern matches. *)
Fixpoint re_search_export (content : str) : option str :=
  match export_at content with
  | Some g => Some g
  | None =>
      match content with
      | [] => None
      | _ :: content' => re_search_export content'
      end
  end.

(** The part of the key pattern after its leading white space, at the start
    of [s]: a group of word characters, a colon, white space, and group 2
    up to the end of the line.  For a line without a newline: after the
    colon the white-space star takes all the white space and group 2 the
    rest of the line. *)
Definition key_at (s : str) : option (str * str) :=
  match take_while is_word s, drop_while is_word s with
  | (_ :: _) as key_name, 58 :: rest => Some (key_name, drop_while isspace rest)
  | _, _ => None
  end.

(** [re.match] of the key pattern (start of line, white space, a group of
    word characters, a colon, white space, a group with the rest of the
    line) on [line]: the leading white-space star is greedy and gives
    characters back when the rest fails. *)
Fixpoint re_match_key (line : str) : option (str * str) :=
  match line with
  | c :: rest =>
      if isspace c then
        match re_match_key rest with
        | Some groups => Some groups
        | None => key_at line
        end
      else key_at line
  | [] => key_at []
  end.
End Regex.

(** ** Files and the standard output *)

(** The files the scripts can see: path to decoded text.  Only regular files
    that can be opened and decoded as UTF-8 are represented; a path that
    exists as a directory, or as a file that cannot be read or decoded (where
    [open] or [read] would raise), is outside this model. *)
Abbreviation filesystem := (gmap str str).

(** [Path.exists()] *)
Definition path_exists (fs : filesystem) (file_path : str) : bool :=
  bool_decide (is_Some (fs !! file_path)).

(** [with open(file_path, 'r', encoding='utf-8') as f: content = f.read()],
    for the files of the model: the text of a file that is present,
    [FileNotFoundError] for a path that is absent. *)
Definition read_text (fs : filesystem) (file_path : str) : result str :=
  match fs !! file_path with
  | Some content => Ok content
  | None => Raise FileNotFoundError
  end.

(** [locale_dir / name] *)
Definition path_join (dir name : str) : str := dir ++ py "/" ++ name.

(** [d[k]] on a dictionary. *)
Definition dict_get {V} (d : gmap str V) (k : str) : result V :=
  match d !! k with
  | Some v => Ok v
  | None => Raise KeyError
  end.

(** The five configured languages, in the dictionary's insertion order. *)
Definition languages : list (str * str) :=
  [ (py "en", py "English"); (py "de", py "German"); (py "es", py "Spanish");
    (py "fr", py "French"); (py "zh", py "Chinese") ].

(** The marks the reports print: U+274C, U+2705 and U+2795. *)
Definition cross_mark : str := [10060].
Definition check_mark : str := [9989].
Definition plus_mark : str := [10133].

(** ** Sets of keys *)

(** [a <= b] on Python strings: lexicographic on code points, a proper prefix
    comes first. *)
Fixpoint str_leb (a b : str) : bool :=
  match a, b with
  | [], _ => true
  | _ :: _, [] => false
  | x :: a', y :: b' => (x <? y) || ((x =? y) && str_leb a' b')
  end.

Definition str_le (a b : str) : Prop := str_leb a b = true.

#[global] Instance str_le_dec : RelDecision str_le.
Proof. intros a b. unfold str_le. apply _. Defined.

(** [sorted(s)] for a set of strings. *)
Definition sorted (s : gset str) : list str := merge_sort str_le (elements s).

(** [enumerate(l, start)] *)
Definition enumerate {A} (l : list A) (start : nat) : list (nat * A) :=
  zip (seq start (length l)) l.

(** [reference_keys - lang_keys] and [lang_keys - reference_keys]. *)
Definition missing_keys (reference_keys lang_keys : gset str) : gset str :=
  reference_keys ∖ lang_keys.
Definition extra_keys (reference_keys lang_keys : gset str) : gset str :=
  lang_keys ∖ reference_keys.

(** [exit(main())]: the value [main] returns, or 1 when an exception escapes. *)
Definition exit_status (r : result (Z * list str)) : Z :=
  match r with
  | Ok (status, _) => status
  | Raise _ => 1%Z
  end.

(** What the run printed, one entry for each call of [print]; the standard
    output is taken to accept every character printed. *)
Definition stdout (r : result (Z * list str)) : list str :=
  match r with
  | Ok (_, out) => out
  | Raise _ => []
  end.

Definition banner : str := repeat_char 61 80.
Definition rule : str := repeat_char 45 80.

(** ** check-translations-detailed.py *)

Module Detailed.
Section WithUnicode.
Context `{UnicodeData}.

(** The body of the [for line in lines] loop of [extract_nested_keys]:
    the state is [current_path] and the enclosing function's [keys]. *)
Definition extract_line (st : list str * gset str) (line : str)
  : result (list str * gset str) :=
  let '(current_path, keys) := st in
  let stripped := strip line in
  if bool_decide (stripped = []) || startswith (py "//") stripped then Ok st
  else
    let close_braces := count 125 line in
    let '(current_path, keys) :=
      match re_match_key line with
      | Some (key_name, group2) =>
          let value_part := strip group2 in
          let full_key := join (py ".") (current_path ++ [key_name]) in
          if startswith (py "{") value_part
          then (current_path ++ [key_name], keys)
          else (current_path, {[full_key]} ∪ keys)
      | None => (current_path, keys)
      end in
    current_path ←!
      (if bool_decide (0 < close_braces)%nat
       then for_each (fun current_path (_ : nat) =>
                        if bool_decide (current_path ≠ [])
                        then list_pop current_path
                        else Ok current_path)
                     (seq 0 close_braces) current_path
       else Ok current_path);
    Ok (current_path, keys).

(** [extract_nested_keys(text, prefix='')]; returns the updated [keys] of
    the enclosing function.  [prefix] is never read. *)
Definition extract_nested_keys (text prefix : str) (keys : gset str)
  : result (gset str) :=
  let lines := split_lines text in
  let current_path : list str := [] in
  '(_, keys) ←! for_each extract_line lines (current_path, keys);
  Ok keys.

Definition extract_keys_from_ts (fs : filesystem) (file_path : str)
  : result (gset str) :=
  content ←! read_text fs file_path;
  match re_search_export content with
  | None => Ok ∅
  | Some obj_content =>
      let keys : gset str := ∅ in
      extract_nested_keys obj_content [] keys
  end.

(** First loop of [main]: one language file. *)
Definition load_language (fs : filesystem) (locale_dir : str)
    (st : gmap str (gset str) * list str) (lang : str * str)
  : result (gmap str (gset str) * list str) :=
  let '(all_keys, out) := st in
  let '(code, name) := lang in
  let file_path := path_join locale_dir (code ++ py ".ts") in
  if path_exists fs file_path then
    keys ←! extract_keys_from_ts fs file_path;
    Ok (<[code := keys]> all_keys,
        out ++ [name ++ py " (" ++ code ++ py "): " ++ str_of_nat (size keys)
                ++ py " keys"])
  else
    Ok (<[code := ∅]> all_keys,
        out ++ [cross_mark ++ py " " ++ name ++ py " (" ++ code
                ++ py "): File not found!"]).

(** Second loop of [main]: the listing for one language. *)
Definition list_language (reference_keys : gset str)
    (all_keys : gmap str (gset str)) (out : list str) (lang : str * str)
  : result (list str) :=
  let '(code, name) := lang in
  if bool_decide (code = py "en") then Ok out else
  lang_keys ←! dict_get all_keys code;
  let missing := sorted (missing_keys reference_keys lang_keys) in
  let out := out ++ [name ++ py " (" ++ code ++ py "):"; rule] in
  let out :=
    if bool_decide (missing ≠ []) then
      out ++ [cross_mark ++ py " MISSING " ++ str_of_nat (length missing)
              ++ py " keys:" ++ [10]]
          ++ ((fun '(i, key) => rjust 3 (str_of_nat i) ++ py ". " ++ key)
                <$> enumerate missing 1)
    else out ++ [check_mark ++ py " All keys present!"] in
  Ok (out ++ [[]; banner; []]).

(** Third loop of [main]: one row of the summary. *)
Definition summary_language (reference_keys : gset str)
    (all_keys : gmap str (gset str)) (st : nat * list str) (lang : str * str)
  : result (nat * list str) :=
  let '(total_missing, out) := st in
  let '(code, name) := lang in
  if bool_decide (code = py "en") then Ok st else
  lang_keys ←! dict_get all_keys code;
  let missing_count := size (missing_keys reference_keys lang_keys) in
  let total_missing := (total_missing + missing_count)%nat in
  let status := if bool_decide (missing_count = 0%nat) then check_mark else cross_mark in
  Ok (total_missing,
      out ++ [status ++ py " " ++ ljust 15 name ++ py " (" ++ code ++ py "): "
              ++ rjust 3 (str_of_nat missing_count) ++ py " missing keys"]).

(** [main] from the comment "Use English as reference" on, for the
    dictionary [all_keys] the first loop built. *)
Definition report (all_keys : gmap str (gset str)) (out : list str)
  : result (Z * list str) :=
  let reference_keys := default ∅ (all_keys !! py "en") in
  out ←! for_each (list_language reference_keys all_keys) languages out;
  let out := out ++ [py "SUMMARY:"; rule] in
  let total_missing := 0%nat in
  '(total_missing, out) ←!
    for_each (summary_language reference_keys all_keys) languages (total_missing, out);
  let out := out ++ [[]] in
  if bool_decide (total_missing = 0%nat) then
    Ok (0%Z, out ++ [check_mark ++ py " All languages are complete and consistent!"])
  else
    Ok (1%Z, out ++ [cross_mark ++ py " Total missing keys across all languages: "
                     ++ str_of_nat total_missing]).

Definition main (fs : filesystem) : result (Z * list str) :=
  let locale_dir := py "src/i18n/locales" in
  let out := [banner; py "DETAILED Translation Consistency Report"; banner; []] in
  let all_keys : gmap str (gset str) := ∅ in
  '(all_keys, out) ←! for_each (load_language fs locale_dir) languages (all_keys, out);
  let out := out ++ [[]; banner; []] in
  report all_keys out.
End WithUnicode.
End Detailed.

(** ** check-translations.py *)

Module Strict.
Section WithUnicode.
Context `{UnicodeData}.

(** The key pattern the script compiles and never uses. *)
Definition key_pattern : str := py "^\s*(\w+):\s*['{`\{]".

(** The body of the [for line in lines] loop of [extract_nested_keys];
    [open_braces] is counted and never read. *)
Definition extract_line (st : list str * gset str) (line : str)
  : result (list str * gset str) :=
  let '(current_path, keys) := st in
  let stripped := strip line in
  if bool_decide (stripped = []) || startswith (py "//") stripped then Ok st
  else
    let open_braces := count 123 line in
    let close_braces := count 125 line in
    let '(current_path, keys) :=
      match re_match_key line with
      | Some (key_name, group2) =>
          let value_part := strip group2 in
          let full_key := join (py ".") (current_path ++ [key_name]) in
          if startswith (py "{") value_part
          then (current_path ++ [key_name], keys)
          else (current_path, {[full_key]} ∪ keys)
      | None => (current_path, keys)
      end in
    current_path ←!
      (if bool_decide (0 < close_braces)%nat
       then for_each (fun current_path (_ : nat) =>
                        if bool_decide (current_path ≠ [])
                        then list_pop current_path
                        else Ok current_path)
                     (seq 0 close_braces) current_path
       else Ok current_path);
    Ok (current_path, keys).

(** [extract_nested_keys(text, prefix='')]; [stack] and [prefix] are never
    read. *)
Definition extract_nested_keys (text prefix : str) (keys : gset str)
  : result (gset str) :=
  let lines := split_lines text in
  let stack : list str := [] in
  let current_path : list str := [] in
  '(_, keys) ←! for_each extract_line lines (current_path, keys);
  Ok keys.

Definition extract_keys_from_ts (fs : filesystem) (file_path : str)
  : result (gset str) :=
  content ←! read_text fs file_path;
  match re_search_export content with
  | None => Ok ∅
  | Some obj_content =>
      let keys : gset str := ∅ in
      let key_pattern := key_pattern in
      extract_nested_keys obj_content [] keys
  end.

(** First loop of [main]: one language file. *)
Definition load_language (fs : filesystem) (locale_dir : str)
    (st : gmap str (gset str) * list str) (lang : str * str)
  : result (gmap str (gset str) * list str) :=
  let '(all_keys, out) := st in
  let '(code, name) := lang in
  let file_path := path_join locale_dir (code ++ py ".ts") in
  if path_exists fs file_path then
    keys ←! extract_keys_from_ts fs file_path;
    Ok (<[code := keys]> all_keys,
        out ++ [name ++ py " (" ++ code ++ py "): " ++ str_of_nat (size keys)
                ++ py " keys found"])
  else
    Ok (<[code := ∅]> all_keys,
        out ++ [cross_mark ++ py " " ++ name ++ py " (" ++ code
                ++ py "): File not found!"]).

(** The lines printed for one category: header, at most 20 sorted keys, and
    the truncation note. *)
Definition list_keys (header bullet : str) (ks : gset str) : list str :=
  [header]
  ++ ((fun key => bullet ++ key) <$> take 20 (sorted ks))
  ++ (if bool_decide (20 < size ks)%nat
      then [py "  ... and " ++ str_of_nat (size ks - 20) ++ py " more"]
      else []).

(** Second loop of [main]: the check of one language; the state is
    [has_issues] and the output. *)
Definition check_language (reference_keys : gset str)
    (all_keys : gmap str (gset str)) (st : bool * list str) (lang : str * str)
  : result (bool * list str) :=
  let '(has_issues, out) := st in
  let '(code, name) := lang in
  if bool_decide (code = py "en") then Ok st else
  lang_keys ←! dict_get all_keys code;
  let missing := missing_keys reference_keys lang_keys in
  let extra := extra_keys reference_keys lang_keys in
  if bool_decide (missing ≠ ∅) || bool_decide (extra ≠ ∅) then
    let has_issues := true in
    let out := out ++ [rule; name ++ py " (" ++ code ++ py ") - INCONSISTENCIES FOUND"; rule] in
    let out :=
      if bool_decide (missing ≠ ∅) then
        out ++ list_keys ([10] ++ cross_mark ++ py " MISSING " ++ str_of_nat (size missing)
                          ++ py " keys in " ++ name ++ py ":")
                         (py "  - ") missing
      else out in
    let out :=
      if bool_decide (extra ≠ ∅) then
        out ++ list_keys ([10] ++ plus_mark ++ py " EXTRA " ++ str_of_nat (size extra)
                          ++ py " keys in " ++ name ++ py " (not in English):")
                         (py "  + ") extra
      else out in
    Ok (has_issues, out ++ [[]])
  else
    Ok (has_issues,
        out ++ [check_mark ++ py " " ++ name ++ py " (" ++ code
                ++ py "): All keys match English reference!"]).

(** [main] from the comment "Use English as reference" on, for the
    dictionary [all_keys] the first loop built. *)
Definition report (all_keys : gmap str (gset str)) (out : list str)
  : result (Z * list str) :=
  let reference_keys := default ∅ (all_keys !! py "en") in
  let out := out ++ [py "Using English as reference with "
                     ++ str_of_nat (size reference_keys) ++ py " keys"; []] in
  let has_issues := false in
  '(has_issues, out) ←!
    for_each (check_language reference_keys all_keys) languages (has_issues, out);
  let out := out ++ [banner] in
  if negb has_issues then
    Ok (0%Z, out ++ [check_mark ++ py " SUCCESS: All languages are consistent!"])
  else
    Ok (1%Z, out ++ [cross_mark ++ py " FAILURE: Inconsistencies found!";
                     [10] ++ py "Recommendation: Please add missing keys to incomplete language files."]).

Definition main (fs : filesystem) : result (Z * list str) :=
  let locale_dir := py "src/i18n/locales" in
  let out := [banner; py "Translation Consistency Check"; banner; []] in
  let all_keys : gmap str (gset str) := ∅ in
  '(all_keys, out) ←! for_each (load_language fs locale_dir) languages (all_keys, out);
  let out := out ++ [[]] in
  report all_keys out.
End WithUnicode.
End Strict.

(** ** Vocabulary of the specification *)

(** What a line is to the loop of [extract_nested_keys]. *)
Inductive line_kind :=
| Skipped                  (* blank or a line comment *)
| Leaf (key_name : str)    (* a key whose value does not start with a brace *)
| Opens (key_name : str)   (* a key whose value starts with an open brace *)
| Plain.                   (* anything else *)

Section Vocabulary.
Context `{UnicodeData}.

Definition classify (line : str) : line_kind :=
  let stripped := strip line in
  if bool_decide (stripped = []) || startswith (py "//") stripped then Skipped
  else match re_match_key line with
       | Some (key_name, group2) =>
           if startswith (py "{") (strip group2) then Opens key_name else Leaf key_name
       | None => Plain
       end.

(** The nesting path after a line, from the path before it. *)
Definition next_path (current_path : list str) (line : str) : list str :=
  let popped p := take (length p - count 125 line) p in
  match classify line with
  | Skipped => current_path
  | Opens key_name => popped (current_path ++ [key_name])
  | Leaf _ | Plain => popped current_path
  end.

(** Every line the loop meets, with the nesting path it meets it at. *)
Fixpoint visits (lines : list str) (current_path : list str) : list (list str * str) :=
  match lines with
  | [] => []
  | line :: lines' => (current_path, line) :: visits lines' (next_path current_path line)
  end.

(** The dotted key path of a visited line. *)
Definition leaf_key_of (v : list str * str) : option str :=
  match classify v.2 with
  | Leaf key_name => Some (join (py ".") (v.1 ++ [key_name]))
  | _ => None
  end.

Definition object_key_of (v : list str * str) : option str :=
  match classify v.2 with
  | Opens key_name => Some (join (py ".") (v.1 ++ [key_name]))
  | _ => None
  end.
End Vocabulary.


(** The languages that are compared with the reference. *)
Definition non_reference_languages : list (str * str) :=
  filter (fun lang => lang.1 ≠ py "en") languages.

(** The sum the specification calls the total number of missing keys. *)
Definition total_missing (all_keys : gmap str (gset str)) : nat :=
  let reference_keys := default ∅ (all_keys !! py "en") in
  sum_list ((fun lang : str * str =>
               size (missing_keys reference_keys (default ∅ (all_keys !! lang.1))))
            <$> non_reference_languages).

(** A language with a missing or an extra key. *)
Definition inconsistent (all_keys : gmap str (gset str)) (lang : str * str) : Prop :=
  let reference_keys := default ∅ (all_keys !! py "en") in
  let lang_keys := default ∅ (all_keys !! lang.1) in
  missing_keys reference_keys lang_keys ≠ ∅ ∨ extra_keys reference_keys lang_keys ≠ ∅.




(** Every language of [langs] that is compared has an entry in the dictionary. *)
Definition complete_for (all_keys : gmap str (gset str)) (langs : list (str * str)) : Prop :=
  ∀ lang, lang ∈ langs → lang.1 ≠ py "en" → is_Some (all_keys !! lang.1).

(** What one language adds to the total. *)
Definition missing_count_of (all_keys : gmap str (gset str)) (lang : str * str) : nat :=
  size (missing_keys (default ∅ (all_keys !! py "en")) (default ∅ (all_keys !! lang.1))).

(** The file of a language under the configured directory. *)
Definition language_file (code : str) : str :=
  path_join (py "src/i18n/locales") (code ++ py ".ts").

Section Loaded.
Context {U : UnicodeData}.

(** The key set [main] records for a language: what the extractor returns
    for its file, the empty set when the file is absent. *)
Definition language_keys (fs : filesystem) (code : str) : gset str :=
  match Detailed.extract_keys_from_ts fs (language_file code) with
  | Ok keys => keys
  | Raise _ => ∅
  end.

(** The dictionary after the first loop of [main] over [langs]. *)
Definition loaded_keys (fs : filesystem) (langs : list (str * str))
    (all_keys : gmap str (gset str)) : gmap str (gset str) :=
  foldl (fun all_keys lang => <[lang.1 := language_keys fs lang.1]> all_keys) all_keys langs.
End Loaded.

(** The snippet of the specification's first scenario, and the same snippet
    inside a dictionary declaration. *)
Definition scenario1 : str :=
  py "greeting: 'hi'" ++ [10] ++ py "menu: {" ++ [10] ++ py "  file: 'File'" ++ [10]
  ++ py "  edit: 'Edit'" ++ [10] ++ py "}".

Definition scenario1_declared : str :=
  py "export const en: TranslationDict = {" ++ [10] ++ scenario1 ++ [10] ++ py "};".

Definition scenario1_keys : gset str :=
  {[ py "greeting"; py "menu.file"; py "menu.edit" ]}.

(** A dictionary in which the path [a] is first an object and then a leaf. *)
Definition object_then_leaf : str :=
  py "export const en: TranslationDict = {" ++ [10] ++ py "  a: {" ++ [10]
  ++ py "  }," ++ [10] ++ py "  a: 'x'," ++ [10] ++ py "};".



(** [p] occurs somewhere in [s]. *)
Definition occurs (p s : str) : Prop := ∃ before after, s = before ++ p ++ after.

Section Segments.
Context {U : UnicodeData}.

(** A key name as the key pattern captures it: a non-empty run of word
    characters. *)
Definition word_segment (s : str) : Prop := s ≠ [] ∧ Forall (fun c => is_word c = true) s.

(** No code point is both white space and a word character, as in the
    Unicode character database. *)
Definition tables_disjoint : Prop := ∀ c, isspace c = true → is_word c = false.
End Segments.

Section SkippedLines.
Context {U : UnicodeData}.

(** The test at the head of the loop: the line is blank or a line comment. *)
Definition is_skipped (line : str) : bool :=
  bool_decide (strip line = []) || startswith (py "//") (strip line).
End SkippedLines.

(** A declaration whose literal is closed without the semicolon. *)
Definition unterminated : str :=
  py "export const en: TranslationDict = {" ++ [10] ++ py "  a: 'x'," ++ [10] ++ py "}".

(** A directory in which only the English file exists. *)
Definition english_only : filesystem :=
  {[ language_file (py "en") := scenario1_declared ]}.

(** * Properties *)

Section Extractor.
Context {U : UnicodeData}.

(** The colon that ends a key is not a word character, whatever the table:
    a run of word characters shorter than the whole run is never followed
    by the colon. *)
Lemma colon_not_word : is_word 58 = false.
Proof. reflexivity. Qed.

(** The pieces of [split('\n')] hold no newline, so on a piece the dot of
    the key pattern matches every character and its dollar is the end of
    the piece. *)
Lemma split_lines_no_newline (s line : str) : line ∈ split_lines s → 10 ∉ line.
Proof.
  revert line. induction s as [|c s IH]; intros line; cbn [split_lines].
  - intros ->%list_elem_of_singleton. apply not_elem_of_nil.
  - destruct (N.eqb_spec c 10) as [->|Hc].
    + intros [->|Hin]%elem_of_cons; [apply not_elem_of_nil|by apply IH].
    + destruct (split_lines s) as [|l ls] eqn:Hsplit.
      * intros ->%list_elem_of_singleton. intros [?|[]%elem_of_nil]%elem_of_cons. done.
      * intros [->|Hin]%elem_of_cons.
        -- intros [?|Hl]%elem_of_cons; [done|]. apply (IH l); [left|done].
        -- apply IH. by right.
Qed.

(** The guarded pop loop removes [n] segments, stopping at the empty path. *)
Lemma pop_loop_spec (n k : nat) (current_path : list str) :
  for_each (fun current_path (_ : nat) =>
              if bool_decide (current_path ≠ [])
              then list_pop current_path
              else Ok current_path)
           (seq k n) current_path
  = Ok (take (length current_path - n) current_path).
Proof.
  revert k current_path. induction n as [|n IH]; intros k current_path.
  - simpl. by rewrite Nat.sub_0_r, firstn_all.
  - cbn [seq for_each]. case_bool_decide as Hne.
    + destruct current_path as [|seg rest] using rev_ind; [done|].
      assert (list_pop (rest ++ [seg]) = Ok rest) as ->.
      { unfold list_pop. destruct (rest ++ [seg]) eqn:E.
        - by destruct rest.
        - by rewrite <- E, removelast_last. }
      simpl. rewrite IH, length_app. simpl.
      replace (length rest + 1 - S n)%nat with (length rest - n)%nat by lia.
      by rewrite take_app_le by lia.
    + subst. simpl. rewrite IH. by destruct n.
Qed.
End Extractor.

Section Order.
Lemma str_leb_total (a b : str) : str_leb a b = true ∨ str_leb b a = true.
Proof.
  revert b. induction a as [|x a IH]; intros [|y b]; cbn [str_leb]; auto.
  destruct (N.ltb_spec x y), (N.ltb_spec y x), (N.eqb_spec x y), (N.eqb_spec y x);
    cbn [orb andb]; auto; lia.
Qed.

Lemma str_leb_trans (a b c : str) :
  str_leb a b = true → str_leb b c = true → str_leb a c = true.
Proof.
  revert b c. induction a as [|x a IH]; intros [|y b] [|z c]; cbn [str_leb]; auto;
    try discriminate.
  destruct (N.ltb_spec x y), (N.ltb_spec y z), (N.ltb_spec x z),
    (N.eqb_spec x y), (N.eqb_spec y z), (N.eqb_spec x z);
    cbn [orb andb]; auto; try discriminate; try lia.
  apply IH.
Qed.

Lemma str_leb_antisym (a b : str) :
  str_leb a b = true → str_leb b a = true → a = b.
Proof.
  revert b. induction a as [|x a IH]; intros [|y b]; cbn [str_leb]; auto;
    try discriminate.
  destruct (N.ltb_spec x y), (N.ltb_spec y x), (N.eqb_spec x y), (N.eqb_spec y x);
    cbn [orb andb]; try discriminate; try lia.
  intros. f_equal; auto.
Qed.

#[global] Instance str_le_total : Total str_le.
Proof. intros a b. apply str_leb_total. Qed.
#[global] Instance str_le_trans : Transitive str_le.
Proof. intros a b c. apply str_leb_trans. Qed.
#[global] Instance str_le_antisym : AntiSymm (=) str_le.
Proof. intros a b. apply str_leb_antisym. Qed.





End Order.

Section ExtractorClaims.
Context {U : UnicodeData}.

(** One iteration of the loop never raises, and [classify] and [next_path]
    describe what it does. *)
Lemma extract_line_classify (current_path : list str) (keys : gset str) (line : str) :
  Detailed.extract_line (current_path, keys) line
  = Ok (next_path current_path line,
        match leaf_key_of (current_path, line) with
        | Some full_key => {[full_key]} ∪ keys
        | None => keys
        end).
Proof.
  unfold Detailed.extract_line, next_path, leaf_key_of, classify.
  cbv beta iota zeta. cbn [fst snd].
  destruct (bool_decide (strip line = []) || startswith (py "//") (strip line)); [done|].
  assert (∀ p : list str,
    (if bool_decide (0 < count 125 line)%nat
     then for_each (fun current_path (_ : nat) =>
                      if bool_decide (current_path ≠ [])
                      then list_pop current_path
                      else Ok current_path)
                   (seq 0 (count 125 line)) p
     else Ok p) = Ok (take (length p - count 125 line) p)) as Hpop.
  { intros p. case_bool_decide.
    - apply pop_loop_spec.
    - replace (count 125 line) with 0%nat by lia.
      by rewrite Nat.sub_0_r, firstn_all. }
  destruct (re_match_key line) as [[key_name group2]|].
  - destruct (startswith (py "{") (strip group2)); by rewrite Hpop.
  - by rewrite Hpop.
Qed.

Lemma extract_lines_visits (lines : list str) (current_path : list str) (keys : gset str) :
  ∃ final_path,
    for_each Detailed.extract_line lines (current_path, keys)
    = Ok (final_path, list_to_set (omap leaf_key_of (visits lines current_path)) ∪ keys).
Proof.
  revert current_path keys. induction lines as [|line lines IH]; intros current_path keys.
  - exists current_path. simpl. f_equal. f_equal. set_solver.
  - cbn [for_each visits omap]. rewrite extract_line_classify. cbn [result_bind].
    destruct (IH (next_path current_path line)
                 (match leaf_key_of (current_path, line) with
                  | Some full_key => {[full_key]} ∪ keys
                  | None => keys
                  end)) as [final_path ->].
    exists final_path. f_equal. f_equal.
    unfold omap, list_omap.
    destruct (leaf_key_of (current_path, line)); set_solver.
Qed.

(** The strict script's loop body is the detailed script's. *)
Lemma strict_extract_line (st : list str * gset str) (line : str) :
  Strict.extract_line st line = Detailed.extract_line st line.
Proof.
  destruct st as [current_path keys].
  unfold Strict.extract_line, Detailed.extract_line.
  destruct (bool_decide (strip line = []) || startswith (py "//") (strip line)); [done|].
  by destruct (re_match_key line) as [[key_name group2]|].
Qed.

Lemma strict_for_each (lines : list str) (st : list str * gset str) :
  for_each Strict.extract_line lines st = for_each Detailed.extract_line lines st.
Proof.
  revert st. induction lines as [|line lines IH]; intros st; [done|].
  cbn [for_each]. rewrite strict_extract_line.
  destruct (Detailed.extract_line st line); cbn [result_bind]; auto.
Qed.

Lemma strict_extract_keys_eq (fs : filesystem) (file_path : str) :
  Strict.extract_keys_from_ts fs file_path = Detailed.extract_keys_from_ts fs file_path.
Proof.
  unfold Strict.extract_keys_from_ts, Detailed.extract_keys_from_ts.
  destruct (read_text fs file_path) as [content|e]; [|done]. cbn [result_bind].
  destruct (re_search_export content) as [obj_content|]; [|done].
  unfold Strict.extract_nested_keys, Detailed.extract_nested_keys. cbv zeta.
  by rewrite strict_for_each.
Qed.

Lemma extract_keys_from_ts_found (fs : filesystem) (file_path content : str) :
  fs !! file_path = Some content →
  Detailed.extract_keys_from_ts fs file_path
  = Ok (match re_search_export content with
        | Some obj_content =>
            list_to_set (omap leaf_key_of (visits (split_lines obj_content) []))
        | None => ∅
        end).
Proof.
  intros Hfile. unfold Detailed.extract_keys_from_ts, read_text. rewrite Hfile.
  cbn [result_bind]. destruct (re_search_export content) as [obj_content|]; [|done].
  unfold Detailed.extract_nested_keys. cbv zeta.
  destruct (extract_lines_visits (split_lines obj_content) [] ∅) as [final_path ->].
  cbn [result_bind]. f_equal. set_solver.
Qed.

(** C3 (amended): the snippet of scenario 1 taken alone carries no dictionary
    declaration, so the extractor returns the empty set for a file that
    holds exactly the snippet; the line walk over the snippet, and the
    extractor on the snippet placed inside a declaration
    [export const en: TranslationDict = { ... };], yield exactly
    greeting, menu.file and menu.edit. *)
Theorem C3_scenario1_inside_declaration :
  Detailed.extract_keys_from_ts {[ py "en.ts" := scenario1 ]} (py "en.ts") = Ok ∅
  ∧ Detailed.extract_nested_keys scenario1 [] ∅ = Ok scenario1_keys
  ∧ Detailed.extract_keys_from_ts {[ py "en.ts" := scenario1_declared ]} (py "en.ts")
    = Ok scenario1_keys.
Proof. repeat split; vm_compute; reflexivity. Qed.

(** C4: a line that opens a nested object (the key pattern matches and the
    trimmed value starts with an open brace) and holds exactly one close
    brace leaves the nesting path as it was: the push of the key is undone
    by the single pop.  The key set is untouched as well. *)
Theorem C4_inline_object_cancels_push
    (line key_name group2 : str) (current_path : list str) (keys : gset str) :
  re_match_key line = Some (key_name, group2) →
  startswith (py "{") (strip group2) = true →
  count 125 line = 1%nat →
  Detailed.extract_line (current_path, keys) line = Ok (current_path, keys)
  ∧ Strict.extract_line (current_path, keys) line = Ok (current_path, keys).
Proof.
  intros Hmatch Hopen Hclose.
  assert (Detailed.extract_line (current_path, keys) line = Ok (current_path, keys))
    as Hline; [|split; [done|exact (eq_trans (strict_extract_line _ _) Hline)]].
  unfold Detailed.extract_line.
  destruct (bool_decide (strip line = []) || startswith (py "//") (strip line)); [done|].
  cbv zeta. rewrite Hmatch, Hopen, Hclose.
  rewrite bool_decide_true by lia. rewrite pop_loop_spec.
  cbn [result_bind]. rewrite length_app. cbn [length].
  rewrite Nat.add_sub. by rewrite take_app_length.
Qed.

(** C5 (amended): every member of the returned set is the dotted path of a
    visited line that is matched as a leaf assignment, and every such path
    is a member; a line whose value starts with an open brace adds nothing
    to the set. *)
Theorem C5_members_come_from_leaf_lines
    (fs : filesystem) (file_path : str) (keys : gset str) :
  Detailed.extract_keys_from_ts fs file_path = Ok keys
  ∨ Strict.extract_keys_from_ts fs file_path = Ok keys →
  (∀ key, key ∈ keys ↔
     ∃ content obj_content v,
       fs !! file_path = Some content
       ∧ re_search_export content = Some obj_content
       ∧ v ∈ visits (split_lines obj_content) []
       ∧ leaf_key_of v = Some key)
  ∧ (∀ current_path keys0 line key_name,
       classify line = Opens key_name →
       ∃ path', Detailed.extract_line (current_path, keys0) line = Ok (path', keys0)
                ∧ Strict.extract_line (current_path, keys0) line = Ok (path', keys0)).
Proof.
  intros Hrun.
  assert (Detailed.extract_keys_from_ts fs file_path = Ok keys) as Hrun'.
  { destruct Hrun as [?|Hs]; [done|].
    exact (eq_trans (eq_sym (strict_extract_keys_eq fs file_path)) Hs). }
  clear Hrun. split.
  - intros key. destruct (fs !! file_path) as [content|] eqn:Hfile.
    + rewrite (extract_keys_from_ts_found _ _ _ Hfile) in Hrun'.
      injection Hrun' as <-.
      destruct (re_search_export content) as [obj_content|] eqn:Hsearch.
      * rewrite elem_of_list_to_set, list_elem_of_omap. split.
        -- intros (v & ? & ?). exists content, obj_content, v. auto.
        -- intros (? & ? & v & [= <-] & Hobj & ? & ?).
           rewrite Hsearch in Hobj. injection Hobj as <-. exists v. auto.
      * split; [set_solver|]. intros (? & ? & ? & [= <-] & Hobj & _).
        by rewrite Hsearch in Hobj.
    + unfold Detailed.extract_keys_from_ts, read_text in Hrun'.
      by rewrite Hfile in Hrun'.
  - intros current_path keys0 line key_name Hkind.
    exists (next_path current_path line).
    assert (Detailed.extract_line (current_path, keys0) line
            = Ok (next_path current_path line, keys0)) as Hline.
    { rewrite extract_line_classify. unfold leaf_key_of. cbn [snd]. by rewrite Hkind. }
    split; [done|exact (eq_trans (strict_extract_line _ _) Hline)].
Qed.

(** C6: the extractor never raises on the text of a file: without the
    declaration pattern it returns the empty set, and the walk over the
    lines, with its pop for each close brace guarded by the test for an
    empty path, always ends with a result. *)
Theorem C6_extractor_total (fs : filesystem) (file_path content : str) :
  fs !! file_path = Some content →
  (∃ keys, Detailed.extract_keys_from_ts fs file_path = Ok keys
           ∧ (re_search_export content = None → keys = ∅))
  ∧ (∀ lines st, ∃ st', for_each Detailed.extract_line lines st = Ok st').
Proof.
  intros Hfile. split.
  - rewrite (extract_keys_from_ts_found _ _ _ Hfile).
    eexists. split; [done|]. by intros ->.
  - intros lines [current_path keys].
    destruct (extract_lines_visits lines current_path keys) as [final_path ->]. eauto.
Qed.

(** C9: on every file system and path the strict script's extractor returns
    what the detailed script's extractor returns, a raised exception
    included. *)
Theorem C9_extractors_agree (fs : filesystem) (file_path : str) :
  Strict.extract_keys_from_ts fs file_path = Detailed.extract_keys_from_ts fs file_path.
Proof. exact (strict_extract_keys_eq fs file_path). Qed.
End ExtractorClaims.

(** The four languages that are compared. *)
Lemma non_reference_languages_eq :
  non_reference_languages
  = [ (py "de", py "German"); (py "es", py "Spanish"); (py "fr", py "French");
      (py "zh", py "Chinese") ].
Proof. vm_compute. reflexivity. Qed.

Section DetailedReport.
Variable all_keys : gmap str (gset str).
Let reference_keys : gset str := default ∅ (all_keys !! py "en").

Lemma complete_for_cons lang langs :
  complete_for all_keys (lang :: langs) →
  (lang.1 ≠ py "en" → is_Some (all_keys !! lang.1)) ∧ complete_for all_keys langs.
Proof.
  intros Hall. split.
  - apply Hall. left.
  - intros lang' Hin. apply Hall. by right.
Qed.

Lemma complete_for_languages :
  (∀ lang, lang ∈ non_reference_languages → is_Some (all_keys !! lang.1)) →
  complete_for all_keys languages.
Proof.
  intros Hall lang Hin Hne. apply Hall.
  unfold non_reference_languages. by apply list_elem_of_filter.
Qed.

Lemma lookup_default (code : str) :
  is_Some (all_keys !! code) → all_keys !! code = Some (default ∅ (all_keys !! code)).
Proof. by intros [ks ->]. Qed.

Lemma detailed_listing_ok (langs : list (str * str)) (out : list str) :
  complete_for all_keys langs →
  ∃ out', for_each (Detailed.list_language reference_keys all_keys) langs out = Ok out'.
Proof.
  revert out. induction langs as [|[code name] langs IH]; intros out Hall; [by eexists|].
  apply complete_for_cons in Hall as [Hhere Hall]. cbn [for_each fst] in *.
  unfold Detailed.list_language at 1. case_bool_decide as Hen.
  - cbn [result_bind]. by apply IH.
  - unfold dict_get. destruct (Hhere Hen) as [ks ->]. cbn [result_bind]. by apply IH.
Qed.

Lemma detailed_summary_total (langs : list (str * str)) (total : nat) (out : list str) :
  complete_for all_keys langs →
  ∃ out',
    for_each (Detailed.summary_language reference_keys all_keys) langs (total, out)
    = Ok ((total + sum_list (missing_count_of all_keys
                               <$> filter (fun lang => lang.1 ≠ py "en") langs))%nat,
          out').
Proof.
  revert total out. induction langs as [|[code name] langs IH]; intros total out Hall.
  - exists out. cbn. by rewrite Nat.add_0_r.
  - apply complete_for_cons in Hall as [Hhere Hall]. cbn [for_each].
    unfold Detailed.summary_language at 1. rewrite filter_cons. cbn [fst] in *.
    case_bool_decide as Hen.
    + cbn [result_bind]. rewrite decide_False by auto. by apply IH.
    + rewrite decide_True by done. unfold dict_get.
      rewrite (lookup_default _ (Hhere Hen)). cbn [result_bind].
      edestruct IH as [out' ->]; [done|]. exists out'.
      rewrite fmap_cons. cbn [sum_list_with sum_list]. unfold missing_count_of at 2.
      cbn [fst]. by rewrite Nat.add_assoc.
Qed.

(** The end of [main]: the status and the last line printed follow the total. *)
Lemma detailed_report_result (out : list str) :
  (∀ lang, lang ∈ non_reference_languages → is_Some (all_keys !! lang.1)) →
  ∃ body,
    Detailed.report all_keys out
    = Ok (if bool_decide (total_missing all_keys = 0%nat)
          then (0%Z, body ++ [check_mark ++ py " All languages are complete and consistent!"])
          else (1%Z, body ++ [cross_mark ++ py " Total missing keys across all languages: "
                              ++ str_of_nat (total_missing all_keys)])).
Proof.
  intros Hall%complete_for_languages. unfold Detailed.report. cbv zeta.
  fold reference_keys.
  destruct (detailed_listing_ok languages out Hall) as [out1 ->]. cbn [result_bind].
  destruct (detailed_summary_total languages 0 (out1 ++ [py "SUMMARY:"; rule]) Hall)
    as [out2 ->].
  cbn [result_bind]. rewrite Nat.add_0_l.
  change (sum_list _) with (total_missing all_keys).
  exists (out2 ++ [[]]). by case_bool_decide.
Qed.
End DetailedReport.

Section DetailedMain.
Context {U : UnicodeData}.

Lemma language_keys_absent (fs : filesystem) (code : str) :
  fs !! language_file code = None → language_keys fs code = ∅.
Proof.
  intros Hnone. unfold language_keys, Detailed.extract_keys_from_ts, read_text.
  by rewrite Hnone.
Qed.

Lemma language_keys_present (fs : filesystem) (code : str) :
  is_Some (fs !! language_file code) →
  Detailed.extract_keys_from_ts fs (language_file code) = Ok (language_keys fs code).
Proof.
  intros [content Hfile]. unfold language_keys.
  by rewrite (extract_keys_from_ts_found _ _ _ Hfile).
Qed.

Lemma detailed_load (fs : filesystem) (langs : list (str * str))
    (all_keys : gmap str (gset str)) (out : list str) :
  ∃ out',
    for_each (Detailed.load_language fs (py "src/i18n/locales")) langs (all_keys, out)
    = Ok (loaded_keys fs langs all_keys, out').
Proof.
  revert all_keys out. induction langs as [|[code name] langs IH]; intros all_keys out.
  - by exists out.
  - cbn [for_each]. unfold Detailed.load_language at 1, path_exists.
    fold (language_file code). case_bool_decide as Hfile.
    + rewrite (language_keys_present _ _ Hfile). cbn [result_bind]. apply IH.
    + apply eq_None_not_Some in Hfile. cbn [result_bind].
      rewrite <- (language_keys_absent _ _ Hfile). apply IH.
Qed.

Lemma lookup_loaded_keys (fs : filesystem) (langs : list (str * str))
    (all_keys : gmap str (gset str)) (code : str) :
  code ∈ langs.*1 →
  loaded_keys fs langs all_keys !! code = Some (language_keys fs code).
Proof.
  unfold loaded_keys. revert all_keys.
  induction langs as [|[code' name] langs IH] using rev_ind; intros all_keys Hin.
  - by apply elem_of_nil in Hin.
  - rewrite foldl_app. cbn [foldl fst].
    destruct (decide (code' = code)) as [->|Hne].
    + by rewrite lookup_insert_eq.
    + rewrite lookup_insert_ne by done. apply IH.
      rewrite fmap_app in Hin. set_solver.
Qed.

Lemma detailed_main_report (fs : filesystem) :
  ∃ out, Detailed.main fs = Detailed.report (loaded_keys fs languages ∅) out.
Proof.
  unfold Detailed.main. cbv zeta.
  edestruct (detailed_load fs languages ∅) as [out' ->]. cbn [result_bind]. eauto.
Qed.

Lemma loaded_keys_complete (fs : filesystem) (lang : str * str) :
  lang ∈ non_reference_languages →
  is_Some (loaded_keys fs languages ∅ !! lang.1).
Proof.
  intros [_ Hin]%list_elem_of_filter. rewrite lookup_loaded_keys; [done|].
  by apply list_elem_of_fmap_2.
Qed.
End DetailedMain.







Section StrictReport.
Variable all_keys : gmap str (gset str).
Let reference_keys : gset str := default ∅ (all_keys !! py "en").

Lemma strict_check_loop (langs : list (str * str)) (has_issues : bool) (out : list str) :
  complete_for all_keys langs →
  ∃ has_issues' out',
    for_each (Strict.check_language reference_keys all_keys) langs (has_issues, out)
    = Ok (has_issues', out')
    ∧ (has_issues' = true ↔
       has_issues = true
       ∨ ∃ lang, lang ∈ langs ∧ lang.1 ≠ py "en" ∧ inconsistent all_keys lang).
Proof.
  revert has_issues out.
  induction langs as [|[code name] langs IH]; intros has_issues out Hall.
  - exists has_issues, out. split; [done|]. split; [auto|].
    intros [?|(lang & []%elem_of_nil & _)]. done.
  - assert ((code ≠ py "en" → is_Some (all_keys !! code)) ∧ complete_for all_keys langs)
      as [Hhere Hall'].
    { split.
      - apply (Hall (code, name)). left.
      - intros lang Hin. apply Hall. by right. }
    cbn [for_each]. unfold Strict.check_language at 1. case_bool_decide as Hen.
    + cbn [result_bind]. destruct (IH has_issues out Hall') as (h' & out' & -> & Hiff).
      exists h', out'. split; [done|]. rewrite Hiff. split.
      * intros [?|(lang & ? & ? & ?)]; [by left|]. right. exists lang.
        split; [by right|done].
      * intros [?|(lang & [->|?]%elem_of_cons & Hne & ?)]; [by left|done|].
        right. by exists lang.
    + unfold dict_get. destruct (Hhere Hen) as [lang_keys Hlang]. rewrite Hlang.
      cbn [result_bind].
      assert (inconsistent all_keys (code, name)
              ↔ missing_keys reference_keys lang_keys ≠ ∅
                ∨ extra_keys reference_keys lang_keys ≠ ∅) as Hinc.
      { unfold inconsistent. cbn [fst]. by rewrite Hlang. }
      destruct (bool_decide (missing_keys reference_keys lang_keys ≠ ∅)
                || bool_decide (extra_keys reference_keys lang_keys ≠ ∅)) eqn:Hany.
      * cbv zeta. cbn [result_bind].
        match goal with
        | |- context [for_each _ langs (true, ?o)] =>
            destruct (IH true o Hall') as (h' & out' & -> & Hiff)
        end.
        exists h', out'. split; [done|]. rewrite Hiff. split; [|auto].
        intros _. right. exists (code, name). split; [left|]. split; [done|].
        apply Hinc. apply orb_true_iff in Hany as [?%bool_decide_eq_true|?%bool_decide_eq_true];
          auto.
      * cbn [result_bind].
        match goal with
        | |- context [for_each _ langs (has_issues, ?o)] =>
            destruct (IH has_issues o Hall') as (h' & out' & -> & Hiff)
        end.
        exists h', out'. split; [done|]. rewrite Hiff. split.
        -- intros [?|(lang & ? & ? & ?)]; [by left|]. right. exists lang.
           split; [by right|done].
        -- intros [?|(lang & [->|?]%elem_of_cons & Hne & Hbad)]; [by left| |].
           ++ apply Hinc in Hbad. apply orb_false_iff in Hany as [Hm He].
              apply bool_decide_eq_false in Hm, He. tauto.
           ++ right. by exists lang.
Qed.

(** The end of [main]: the status and the last lines printed follow
    [has_issues]. *)
Lemma strict_report_result (out : list str) :
  (∀ lang, lang ∈ non_reference_languages → is_Some (all_keys !! lang.1)) →
  ∃ body,
    ((∃ lang, lang ∈ non_reference_languages ∧ inconsistent all_keys lang)
     ∧ Strict.report all_keys out
       = Ok (1%Z, body ++ [cross_mark ++ py " FAILURE: Inconsistencies found!";
                           [10] ++ py "Recommendation: Please add missing keys to incomplete language files."]))
    ∨ ((¬ ∃ lang, lang ∈ non_reference_languages ∧ inconsistent all_keys lang)
       ∧ Strict.report all_keys out
         = Ok (0%Z, body ++ [check_mark ++ py " SUCCESS: All languages are consistent!"])).
Proof.
  intros Hall%complete_for_languages. unfold Strict.report. cbv zeta.
  fold reference_keys.
  match goal with
  | |- context [for_each _ languages (false, ?o)] =>
      destruct (strict_check_loop languages false o Hall) as (h & out' & -> & Hiff)
  end.
  cbn [result_bind]. exists (out' ++ [banner]).
  assert (h = true ↔ ∃ lang, lang ∈ non_reference_languages ∧ inconsistent all_keys lang)
    as Hh.
  { rewrite Hiff. split.
    - intros [?|(lang & ? & ? & ?)]; [done|]. exists lang. split; [|done].
      by apply list_elem_of_filter.
    - intros (lang & [? ?]%list_elem_of_filter & ?). right. by exists lang. }
  destruct h; cbn [negb].
  - left. split; [by apply Hh|done].
  - right. split; [|done]. by intros Hex%Hh.
Qed.
End StrictReport.

Section StrictMain.
Context {U : UnicodeData}.

Lemma strict_load (fs : filesystem) (langs : list (str * str))
    (all_keys : gmap str (gset str)) (out : list str) :
  ∃ out',
    for_each (Strict.load_language fs (py "src/i18n/locales")) langs (all_keys, out)
    = Ok (loaded_keys fs langs all_keys, out').
Proof.
  revert all_keys out. induction langs as [|[code name] langs IH]; intros all_keys out.
  - by exists out.
  - cbn [for_each]. unfold Strict.load_language at 1, path_exists.
    fold (language_file code). case_bool_decide as Hfile.
    + rewrite (eq_trans (strict_extract_keys_eq _ _) (language_keys_present _ _ Hfile)).
      cbn [result_bind]. apply IH.
    + apply eq_None_not_Some in Hfile. cbn [result_bind].
      rewrite <- (language_keys_absent _ _ Hfile). apply IH.
Qed.

Lemma strict_main_report (fs : filesystem) :
  ∃ out, Strict.main fs = Strict.report (loaded_keys fs languages ∅) out.
Proof.
  unfold Strict.main. cbv zeta.
  edestruct (strict_load fs languages ∅) as [out' ->]. cbn [result_bind]. eauto.
Qed.
End StrictMain.





(** C7: a key set compared with itself has no missing and no extra key, so a
    language whose key set is the reference key set is reported by the strict
    script as matching, with [has_issues] left as it was, and by the
    exhaustive script with a missing count of zero. *)
Theorem C7_diff_against_itself (keys : gset str) :
  missing_keys keys keys = ∅
  ∧ extra_keys keys keys = ∅
  ∧ (∀ (all_keys : gmap str (gset str)) (has_issues : bool) (out : list str)
       (code name : str),
       code ≠ py "en" → all_keys !! code = Some keys →
       Strict.check_language keys all_keys (has_issues, out) (code, name)
       = Ok (has_issues,
             out ++ [check_mark ++ py " " ++ name ++ py " (" ++ code
                     ++ py "): All keys match English reference!"])
       ∧ Detailed.summary_language keys all_keys (0%nat, out) (code, name)
         = Ok (0%nat,
               out ++ [check_mark ++ py " " ++ ljust 15 name ++ py " (" ++ code ++ py "): "
                       ++ rjust 3 (str_of_nat 0) ++ py " missing keys"])).
Proof.
  assert (missing_keys keys keys = ∅) as Hmissing by (unfold missing_keys; set_solver).
  assert (extra_keys keys keys = ∅) as Hextra by (unfold extra_keys; set_solver).
  split; [done|]. split; [done|].
  intros all_keys has_issues out code name Hen Hlang. split.
  - unfold Strict.check_language. rewrite bool_decide_false by done.
    unfold dict_get. rewrite Hlang. cbn [result_bind]. cbv zeta.
    rewrite Hmissing, Hextra. by rewrite bool_decide_false by auto.
  - unfold Detailed.summary_language. rewrite bool_decide_false by done.
    unfold dict_get. rewrite Hlang. cbn [result_bind]. cbv zeta.
    by rewrite Hmissing, size_empty.
Qed.

Lemma sum_list_zero {A} (f : A → nat) (l : list A) :
  (∀ x, x ∈ l → f x = 0%nat) → sum_list (f <$> l) = 0%nat.
Proof.
  induction l as [|x l IH]; intros Hzero; [done|].
  rewrite fmap_cons. cbn [sum_list sum_list_with].
  rewrite (Hzero x) by left. rewrite IH; [done|]. intros y Hy. apply Hzero. by right.
Qed.

(** C8: when the English file is absent, or the extractor finds no key in it,
    the reference key set of the exhaustive script is empty: no language has
    a missing key, the last line printed is the message of success, and the
    exit status is 0. *)
Theorem C8_empty_reference_passes {U : UnicodeData} (fs : filesystem) :
  fs !! language_file (py "en") = None
  ∨ Detailed.extract_keys_from_ts fs (language_file (py "en")) = Ok ∅ →
  default ∅ (loaded_keys fs languages ∅ !! py "en") = ∅
  ∧ (∀ lang, lang ∈ non_reference_languages →
       missing_keys (language_keys fs (py "en")) (language_keys fs lang.1) = ∅)
  ∧ exit_status (Detailed.main fs) = 0%Z
  ∧ last (stdout (Detailed.main fs))
    = Some (check_mark ++ py " All languages are complete and consistent!").
Proof.
  intros Href.
  assert (language_keys fs (py "en") = ∅) as Hen.
  { destruct Href as [Hnone|Hempty].
    - by apply language_keys_absent.
    - unfold language_keys. by rewrite Hempty. }
  assert (total_missing (loaded_keys fs languages ∅) = 0%nat) as Htotal.
  { unfold total_missing. cbv zeta.
    rewrite (lookup_loaded_keys fs languages ∅ (py "en")) by (vm_compute; left).
    cbn [default]. rewrite Hen. apply sum_list_zero. intros lang _.
    apply size_empty_iff. unfold missing_keys. set_solver. }
  split; [|split].
  - rewrite (lookup_loaded_keys fs languages ∅ (py "en")) by (vm_compute; left).
    by rewrite Hen.
  - intros lang _. rewrite Hen. unfold missing_keys. set_solver.
  - destruct (detailed_main_report fs) as [out ->].
    destruct (detailed_report_result (loaded_keys fs languages ∅) out
                (loaded_keys_complete fs)) as [body ->].
    rewrite bool_decide_true by done. cbn [exit_status stdout].
    split; [done|]. apply last_snoc.
Qed.




(** ** The properties on concrete inputs *)

Section Concrete.
#[local] Existing Instance sample_unicode.





Lemma C3_counterexample :
  Detailed.extract_keys_from_ts {[ py "en.ts" := scenario1 ]} (py "en.ts")
  ≠ Ok scenario1_keys.
Proof. vm_compute. discriminate. Qed.

Lemma C4_witness :
  re_match_key (py "  file: { label: 'File' },") = Some (py "file", py "{ label: 'File' },")
  ∧ Detailed.extract_line ([py "menu"], ∅) (py "  file: { label: 'File' },")
    = Ok ([py "menu"], ∅).
Proof.
  split; [vm_compute; reflexivity|].
  apply (C4_inline_object_cancels_push
           (py "  file: { label: 'File' },") (py "file") (py "{ label: 'File' },"));
    vm_compute; reflexivity.
Defined.

Lemma C5_counterexample :
  ¬ ∀ (content obj_content : str) (v : list str * str) (key : str) (keys : gset str),
      ({[ py "en.ts" := object_then_leaf ]} : filesystem) !! py "en.ts" = Some content →
      re_search_export content = Some obj_content →
      v ∈ visits (split_lines obj_content) [] →
      object_key_of v = Some key →
      Detailed.extract_keys_from_ts {[ py "en.ts" := object_then_leaf ]} (py "en.ts")
      = Ok keys →
      key ∉ keys.
Proof.
  intros Hclaim.
  apply (Hclaim object_then_leaf
           (py "{" ++ [10] ++ py "  a: {" ++ [10] ++ py "  }," ++ [10]
            ++ py "  a: 'x'," ++ [10] ++ py "}")
           ([], py "  a: {") (py "a") {[ py "a" ]}).
  - vm_compute. reflexivity.
  - vm_compute. reflexivity.
  - vm_compute. right. left.
  - vm_compute. reflexivity.
  - vm_compute. reflexivity.
  - by apply elem_of_singleton.
Qed.

Lemma C5_witness :
  py "menu.file" ∈ scenario1_keys ↔
    ∃ content obj_content v,
      ({[ py "en.ts" := scenario1_declared ]} : filesystem) !! py "en.ts" = Some content
      ∧ re_search_export content = Some obj_content
      ∧ v ∈ visits (split_lines obj_content) []
      ∧ leaf_key_of v = Some (py "menu.file").
Proof.
  refine (proj1 (C5_members_come_from_leaf_lines
                   {[ py "en.ts" := scenario1_declared ]} (py "en.ts") scenario1_keys _)
                (py "menu.file")).
  left. vm_compute. reflexivity.
Defined.

Lemma C6_witness :
  ∃ keys, Detailed.extract_keys_from_ts {[ py "en.ts" := scenario1 ]} (py "en.ts") = Ok keys
          ∧ (re_search_export scenario1 = None → keys = ∅).
Proof.
  apply (C6_extractor_total {[ py "en.ts" := scenario1 ]} (py "en.ts") scenario1).
  vm_compute. reflexivity.
Defined.

Lemma C7_witness :
  Strict.check_language scenario1_keys {[ py "de" := scenario1_keys ]}
    (false, []) (py "de", py "German")
  = Ok (false, [check_mark ++ py " German (de): All keys match English reference!"]).
Proof.
  apply (proj2 (proj2 (C7_diff_against_itself scenario1_keys))
           {[ py "de" := scenario1_keys ]} false [] (py "de") (py "German")).
  - vm_compute. discriminate.
  - vm_compute. reflexivity.
Defined.

Lemma C8_witness :
  exit_status (Detailed.main ∅) = 0%Z
  ∧ last (stdout (Detailed.main ∅))
    = Some (check_mark ++ py " All languages are complete and consistent!").
Proof.
  apply (C8_empty_reference_passes ∅). left. vm_compute. reflexivity.
Defined.

End Concrete.

(** * Further properties of the extractor *)

Section Declaration.
Context {U : UnicodeData}.

Lemma startswith_true (p s : str) : startswith p s = true ↔ ∃ rest, s = p ++ rest.
Proof.
  revert s. induction p as [|a p IH]; intros s.
  - split; [by exists s|done].
  - destruct s as [|b s]; cbn [startswith].
    + split; [done|]. by intros (? & ?).
    + rewrite andb_true_iff, N.eqb_eq, IH. split.
      * intros (-> & rest & ->). by exists rest.
      * intros (rest & [= -> ->]). eauto.
Qed.

Lemma after_literal_Some (p s rest : str) : after_literal p s = Some rest ↔ s = p ++ rest.
Proof.
  revert s. induction p as [|a p IH]; intros s.
  - cbn. split; [by intros [= ->]|by intros ->].
  - destruct s as [|b s]; cbn [after_literal]; [done|].
    destruct (N.eqb_spec a b) as [->|Hne].
    + rewrite IH. split; [by intros ->|by intros [= ->]].
    + split; [done|]. intros [= ? ?]. done.
Qed.

Lemma occurs_cons (p s : str) (c : N) :
  occurs p (c :: s) ↔ startswith p (c :: s) = true ∨ occurs p s.
Proof.
  rewrite startswith_true. split.
  - intros ([|c' before] & after & Heq).
    + left. by exists after.
    + right. injection Heq as -> ->. by exists before, after.
  - intros [(rest & ->)|(before & after & ->)].
    + by exists [], rest.
    + by exists (c :: before), after.
Qed.

Lemma occurs_app_r (p before s : str) : occurs p s → occurs p (before ++ s).
Proof.
  intros (b & a & ->). exists (before ++ b), a. by rewrite <- app_assoc.
Qed.

Lemma dotall_then_close_cons (c : N) (s : str) :
  dotall_then_close (c :: s)
  = match dotall_then_close s with
    | Some body => Some (c :: body)
    | None => if startswith (py "};") (c :: s) then Some [] else None
    end.
Proof. reflexivity. Qed.

Lemma dotall_then_close_split (s body : str) :
  dotall_then_close s = Some body → ∃ tail, s = body ++ py "};" ++ tail.
Proof.
  revert body. induction s as [|c s IH]; intros body; [done|].
  cbn [dotall_then_close].
  destruct (dotall_then_close s) as [body'|].
  - intros [= <-]. destruct (IH body' eq_refl) as (tail & ->). by exists tail.
  - destruct (startswith (py "};") (c :: s)) eqn:Hstart; [|done].
    intros [= <-]. by apply startswith_true in Hstart.
Qed.

(** The greedy star fails exactly when no [};] is left. *)
Lemma dotall_then_close_None (s : str) :
  dotall_then_close s = None ↔ ¬ occurs (py "};") s.
Proof.
  induction s as [|c s IH].
  - split; [|done]. intros _ ([|? ?] & ? & ?); done.
  - cbn [dotall_then_close]. rewrite occurs_cons.
    destruct (dotall_then_close s) as [body|] eqn:Hs.
    + split; [done|]. intros Hno. exfalso. apply Hno. right.
      destruct (dotall_then_close_split s body Hs) as (tail & ->). by eexists _, _.
    + destruct (startswith (py "};") (c :: s)).
      * split; [done|]. intros Hno. exfalso. apply Hno. by left.
      * split; [|done]. intros _ [?|Hocc]; [done|]. revert Hocc. by apply IH.
Qed.

(** The greedy star stops at the last [};]. *)
Lemma dotall_then_close_Some (s body : str) :
  dotall_then_close s = Some body
  ↔ ∃ tail, s = body ++ py "};" ++ tail ∧ ¬ occurs (py "};") tail.
Proof.
  split.
  - revert body. induction s as [|c s IH]; intros body; [done|].
    cbn [dotall_then_close].
    destruct (dotall_then_close s) as [body'|] eqn:Hrest.
    + intros [= <-]. destruct (IH body' eq_refl) as (tail & -> & Hno). by exists tail.
    + destruct (startswith (py "};") (c :: s)) eqn:Hstart; [|done].
      intros [= <-]. apply startswith_true in Hstart as (tail & Heq).
      exists tail. split; [done|].
      apply dotall_then_close_None in Hrest. intros Hocc. apply Hrest.
      injection Heq as -> ->. by apply (occurs_app_r _ [59]).
  - intros (tail & -> & Hno). induction body as [|c body IH].
    + change (dotall_then_close (125 :: 59 :: tail) = Some []).
      rewrite dotall_then_close_cons.
      assert (dotall_then_close (59 :: tail) = None) as ->.
      { apply dotall_then_close_None. intros [Hs|Hocc]%occurs_cons; [done|]. by apply Hno. }
      done.
    + cbn [app]. by rewrite dotall_then_close_cons, IH.
Qed.

Lemma take_while_drop_while (p : N → bool) (s : str) :
  take_while p s ++ drop_while p s = s.
Proof.
  induction s as [|c s IH]; [done|]. cbn. destruct (p c); [|done]. cbn. by f_equal.
Qed.

Lemma take_while_Forall (p : N → bool) (s : str) :
  Forall (fun c => p c = true) (take_while p s).
Proof.
  induction s as [|c s IH]; [constructor|]. cbn. destruct (p c) eqn:Hc; by constructor.
Qed.

Lemma take_drop_while_stop (p : N → bool) (run : str) (c : N) (rest : str) :
  Forall (fun c => p c = true) run → p c = false →
  take_while p (run ++ c :: rest) = run ∧ drop_while p (run ++ c :: rest) = c :: rest.
Proof.
  intros Hrun Hc. induction Hrun as [|d run Hd _ [IHt IHd]]; cbn.
  - by rewrite Hc.
  - rewrite Hd. by rewrite IHt, IHd.
Qed.

(** What a match of the declaration pattern at the start of [s] looks like. *)
Lemma export_at_Some (s group1 : str) :
  export_at s = Some group1
  ↔ ∃ name body tail,
      word_segment name
      ∧ ¬ occurs (py "};") tail
      ∧ s = py "export const " ++ name ++ py ": TranslationDict = {" ++ body ++ py "};" ++ tail
      ∧ group1 = py "{" ++ body ++ py "}".
Proof.
  unfold export_at. split.
  - destruct (after_literal (py "export const ") s) as [rest|] eqn:Hexport; [|done].
    apply after_literal_Some in Hexport as ->. cbn [mbind option_bind].
    case_bool_decide as Hname; [done|].
    destruct (after_literal (py ": TranslationDict = {") (drop_while is_word rest))
      as [rest'|] eqn:Htype; [|done].
    apply after_literal_Some in Htype. cbn [mbind option_bind].
    destruct (dotall_then_close rest') as [body|] eqn:Hbody; [|done].
    apply dotall_then_close_Some in Hbody as (tail & -> & Hno).
    cbn [mbind option_bind]. intros [= <-].
    exists (take_while is_word rest), body, tail.
    split; [split; [done|apply take_while_Forall]|]. split; [done|]. split; [|done].
    f_equal. rewrite <- Htype. by rewrite take_while_drop_while.
  - intros (name & body & tail & [Hne Hword] & Hno & -> & ->).
    rewrite (proj2 (after_literal_Some _ _ _) eq_refl). cbn [mbind option_bind].
    change (py ": TranslationDict = {") with (58 :: py " TranslationDict = {").
    rewrite <- !app_comm_cons.
    destruct (take_drop_while_stop is_word name 58
                (py " TranslationDict = {" ++ body ++ py "};" ++ tail) Hword eq_refl)
      as [-> ->].
    rewrite bool_decide_false by done.
    change (58 :: py " TranslationDict = {" ++ body ++ py "};" ++ tail)
      with (py ": TranslationDict = {" ++ body ++ py "};" ++ tail).
    rewrite (proj2 (after_literal_Some _ _ _) eq_refl). cbn [mbind option_bind].
    rewrite (proj2 (dotall_then_close_Some _ body)) by eauto. done.
Qed.

Lemma re_search_export_here (s group1 : str) :
  export_at s = Some group1 → re_search_export s = Some group1.
Proof. intros Hat. destruct s; cbn [re_search_export]; by rewrite Hat. Qed.

Lemma re_search_export_Some (content group1 : str) :
  re_search_export content = Some group1 →
  ∃ before s, content = before ++ s ∧ export_at s = Some group1.
Proof.
  induction content as [|c content IH]; cbn [re_search_export].
  - destruct (export_at []) eqn:Hat; [|done]. intros [= <-]. by exists [], [].
  - destruct (export_at (c :: content)) eqn:Hat.
    + intros [= <-]. by exists [], (c :: content).
    + intros (before & s & -> & ?)%IH. by exists (c :: before), s.
Qed.

(** X1: what the declaration search returns always comes from a text
    [export const NAME: TranslationDict = { BODY }; TAIL] in which NAME is a
    non-empty run of word characters and TAIL holds no further [};]: group 1
    is BODY between its braces, so the literal runs to the last [};] of the
    file.  A file that starts with such a declaration is matched there,
    whatever the name and whatever follows the last [};]. *)
Theorem X1_literal_runs_to_last_close :
  (∀ content group1,
     re_search_export content = Some group1 →
     ∃ before name body tail,
       word_segment name
       ∧ ¬ occurs (py "};") tail
       ∧ content = before ++ py "export const " ++ name ++ py ": TranslationDict = {"
                   ++ body ++ py "};" ++ tail
       ∧ group1 = py "{" ++ body ++ py "}")
  ∧ (∀ name body tail,
       word_segment name → ¬ occurs (py "};") tail →
       re_search_export (py "export const " ++ name ++ py ": TranslationDict = {"
                         ++ body ++ py "};" ++ tail)
       = Some (py "{" ++ body ++ py "}")).
Proof.
  split.
  - intros content group1 (before & s & -> & Hat)%re_search_export_Some.
    apply export_at_Some in Hat as (name & body & tail & ? & ? & -> & ->).
    by exists before, name, body, tail.
  - intros name body tail Hname Hno. apply re_search_export_here, export_at_Some.
    by exists name, body, tail.
Qed.

(** X2: a file without the text [export const ], without the text
    [: TranslationDict = {] or without any [};] has no recognisable
    dictionary: both extractors return the empty set for it. *)
Theorem X2_no_declaration_no_keys (fs : filesystem) (file_path content : str) :
  fs !! file_path = Some content →
  ¬ occurs (py "export const ") content
  ∨ ¬ occurs (py ": TranslationDict = {") content
  ∨ ¬ occurs (py "};") content →
  Detailed.extract_keys_from_ts fs file_path = Ok ∅
  ∧ Strict.extract_keys_from_ts fs file_path = Ok ∅.
Proof.
  intros Hfile Hno.
  assert (re_search_export content = None) as Hsearch.
  { destruct (re_search_export content) as [group1|] eqn:Hsearch; [|done]. exfalso.
    apply re_search_export_Some in Hsearch as (before & s & -> & Hat).
    apply export_at_Some in Hat as (name & body & tail & _ & _ & -> & _).
    destruct Hno as [Hno|[Hno|Hno]]; apply Hno.
    - by eexists before, _.
    - exists (before ++ py "export const " ++ name), (body ++ py "};" ++ tail).
      by rewrite <- !app_assoc.
    - exists (before ++ py "export const " ++ name ++ py ": TranslationDict = {" ++ body), tail.
      by rewrite <- !app_assoc. }
  assert (Detailed.extract_keys_from_ts fs file_path = Ok ∅) as Hdetailed.
  { rewrite (extract_keys_from_ts_found _ _ _ Hfile). by rewrite Hsearch. }
  split; [done|]. exact (eq_trans (strict_extract_keys_eq _ _) Hdetailed).
Qed.
End Declaration.

Section KeyShape.
Context {U : UnicodeData}.

Lemma key_at_Some (s key_name group2 : str) :
  key_at s = Some (key_name, group2) →
  word_segment key_name
  ∧ ∃ rest, s = key_name ++ 58 :: rest ∧ group2 = drop_while isspace rest.
Proof.
  unfold key_at. intros Hat.
  pose proof (take_while_drop_while is_word s) as Hsplit.
  pose proof (take_while_Forall is_word s) as Hword.
  destruct (take_while is_word s) as [|c run]; [done|].
  destruct (drop_while is_word s) as [|[|colon] rest]; try done.
  repeat (destruct colon as [colon|colon|]; try done).
  injection Hat as <- <-. split; [done|]. by exists rest.
Qed.

Lemma re_match_key_Some (line key_name group2 : str) :
  re_match_key line = Some (key_name, group2) →
  word_segment key_name
  ∧ ∃ blank rest, line = blank ++ key_name ++ 58 :: rest
                  ∧ Forall (fun c => isspace c = true) blank
                  ∧ group2 = drop_while isspace rest.
Proof.
  induction line as [|c line IH]; cbn [re_match_key].
  - intros (? & rest & -> & ->)%key_at_Some. split; [done|]. by exists [], rest.
  - destruct (isspace c) eqn:Hc.
    + destruct (re_match_key line) as [groups|].
      * intros [= ->]. destruct (IH eq_refl) as (? & blank & rest & -> & ? & ->).
        split; [done|]. exists (c :: blank), rest. split; [done|]. split; [|done].
        by constructor.
      * intros (? & rest & -> & ->)%key_at_Some. split; [done|]. by exists [], rest.
    + intros (? & rest & -> & ->)%key_at_Some. split; [done|]. by exists [], rest.
Qed.

Lemma classify_key_name (line key_name : str) :
  classify line = Leaf key_name ∨ classify line = Opens key_name →
  word_segment key_name.
Proof.
  unfold classify. cbv zeta.
  destruct (bool_decide (strip line = []) || startswith (py "//") (strip line));
    [by intros [?|?]|].
  destruct (re_match_key line) as [[k group2]|] eqn:Hmatch; [|by intros [?|?]].
  apply re_match_key_Some in Hmatch as [Hword _].
  destruct (startswith (py "{") (strip group2)); intros [[= <-]|[= <-]]; done.
Qed.

Lemma next_path_segments (current_path : list str) (line : str) :
  Forall word_segment current_path → Forall word_segment (next_path current_path line).
Proof.
  intros Hpath. unfold next_path. cbv zeta.
  destruct (classify line) as [|k|k|] eqn:Hkind; try done; try by apply Forall_take.
  apply Forall_take, Forall_app. split; [done|]. constructor; [|done].
  apply (classify_key_name line). by right.
Qed.

Lemma visits_segments (lines : list str) (current_path : list str) (v : list str * str) :
  Forall word_segment current_path → v ∈ visits lines current_path →
  Forall word_segment v.1.
Proof.
  revert current_path. induction lines as [|line lines IH]; intros current_path Hpath.
  - by intros ?%elem_of_nil.
  - cbn [visits]. intros [->|Hin]%elem_of_cons; [done|].
    apply (IH (next_path current_path line)); [|done]. by apply next_path_segments.
Qed.

Lemma join_segments (segments : list str) :
  segments ≠ [] → Forall word_segment segments →
  join (py ".") segments ≠ []
  ∧ Forall (fun c => is_word c = true ∨ c = 46) (join (py ".") segments).
Proof.
  intros Hne Hall. induction Hall as [|seg segments [Hseg Hword] Hall IH]; [done|].
  assert (Forall (fun c => is_word c = true ∨ c = 46) seg) as Hseg'.
  { eapply Forall_impl; [exact Hword|]. auto. }
  destruct segments as [|seg' segments]; [done|].
  change (join (py ".") (seg :: seg' :: segments))
    with (seg ++ py "." ++ join (py ".") (seg' :: segments)).
  destruct IH as [_ IH]; [done|]. split.
  - by destruct seg.
  - apply Forall_app. split; [done|]. apply Forall_app. split; [|done].
    constructor; [by right|constructor].
Qed.

(** The keys of a file, as [extract_keys_from_ts_found] gives them, are the
    dotted paths of its visited leaf lines. *)
Lemma extracted_key_visit (fs : filesystem) (file_path : str) (keys : gset str) (key : str) :
  Detailed.extract_keys_from_ts fs file_path = Ok keys → key ∈ keys →
  ∃ content obj_content current_path line key_name,
    fs !! file_path = Some content
    ∧ re_search_export content = Some obj_content
    ∧ (current_path, line) ∈ visits (split_lines obj_content) []
    ∧ classify line = Leaf key_name
    ∧ key = join (py ".") (current_path ++ [key_name]).
Proof.
  intros Hrun Hkey. destruct (fs !! file_path) as [content|] eqn:Hfile.
  - rewrite (extract_keys_from_ts_found _ _ _ Hfile) in Hrun. injection Hrun as <-.
    destruct (re_search_export content) as [obj_content|] eqn:Hsearch; [|set_solver].
    apply elem_of_list_to_set, list_elem_of_omap in Hkey as ([current_path line] & Hin & Hleaf).
    unfold leaf_key_of in Hleaf. cbn [fst snd] in Hleaf.
    destruct (classify line) as [|key_name| |] eqn:Hkind; try done.
    injection Hleaf as <-. by exists content, obj_content, current_path, line, key_name.
  - unfold Detailed.extract_keys_from_ts, read_text in Hrun. by rewrite Hfile in Hrun.
Qed.

(** X3: every key either extractor returns is a dot-joined sequence of
    non-empty runs of word characters: it is not empty and holds nothing but
    word characters and dots (no white space, quote, brace or colon). *)
Theorem X3_keys_are_dotted_words
    (fs : filesystem) (file_path : str) (keys : gset str) (key : str) :
  Detailed.extract_keys_from_ts fs file_path = Ok keys
  ∨ Strict.extract_keys_from_ts fs file_path = Ok keys →
  key ∈ keys →
  (∃ segments, segments ≠ [] ∧ Forall word_segment segments
               ∧ key = join (py ".") segments)
  ∧ key ≠ []
  ∧ Forall (fun c => is_word c = true ∨ c = 46) key.
Proof.
  intros Hrun Hkey.
  assert (Detailed.extract_keys_from_ts fs file_path = Ok keys) as Hrun'.
  { destruct Hrun as [?|Hs]; [done|].
    exact (eq_trans (eq_sym (strict_extract_keys_eq fs file_path)) Hs). }
  destruct (extracted_key_visit _ _ _ _ Hrun' Hkey)
    as (content & obj_content & current_path & line & key_name & _ & _ & Hin & Hkind & ->).
  assert (Forall word_segment (current_path ++ [key_name])) as Hsegments.
  { apply Forall_app. split.
    - by apply (visits_segments (split_lines obj_content) [] (current_path, line)).
    - constructor; [|done]. apply (classify_key_name line). by left. }
  assert (current_path ++ [key_name] ≠ []) as Hne by (by destruct current_path).
  split; [by exists (current_path ++ [key_name])|]. by apply join_segments.
Qed.
End KeyShape.

Section LineWalk.
Context {U : UnicodeData}.

Lemma count_app (c : N) (a b : str) : count c (a ++ b) = (count c a + count c b)%nat.
Proof.
  induction a as [|x a IH]; [done|]. cbn [app count]. destruct (x =? c); by rewrite IH.
Qed.

Lemma length_split_lines (s : str) : length (split_lines s) = S (count 10 s).
Proof.
  induction s as [|c s IH]; [done|]. cbn [split_lines count].
  destruct (c =? 10); cbn [length]; [by rewrite IH|].
  destruct (split_lines s) as [|l ls]; [done|]. by rewrite <- IH.
Qed.

Lemma length_visits (lines : list str) (current_path : list str) :
  length (visits lines current_path) = length lines.
Proof.
  revert current_path. induction lines as [|line lines IH]; intros current_path; [done|].
  cbn [visits length]. by rewrite IH.
Qed.

Lemma size_list_to_set_le (l : list str) :
  (size (list_to_set (C:=gset str) l) ≤ length l)%nat.
Proof.
  induction l as [|x l IH]; [cbn; by rewrite size_empty|].
  cbn [list_to_set length].
  rewrite size_union_alt, size_singleton.
  assert (size (list_to_set (C:=gset str) l ∖ {[x]}) ≤ size (list_to_set (C:=gset str) l))%nat
    by (apply subseteq_size; set_solver).
  lia.
Qed.

Lemma length_omap_le {A B} (f : A → option B) (l : list A) :
  (length (omap f l) ≤ length l)%nat.
Proof.
  induction l as [|x l IH]; [done|]. cbn. destruct (f x); cbn; lia.
Qed.

(** X4: each line adds at most one key, so a file never yields more keys than
    it has lines; several keys written on one line count once at most. *)
Theorem X4_no_more_keys_than_lines
    (fs : filesystem) (file_path content : str) (keys : gset str) :
  fs !! file_path = Some content →
  Detailed.extract_keys_from_ts fs file_path = Ok keys
  ∨ Strict.extract_keys_from_ts fs file_path = Ok keys →
  (size keys ≤ length (split_lines content))%nat.
Proof.
  intros Hfile Hrun.
  assert (Detailed.extract_keys_from_ts fs file_path = Ok keys) as Hrun'.
  { destruct Hrun as [?|Hs]; [done|].
    exact (eq_trans (eq_sym (strict_extract_keys_eq fs file_path)) Hs). }
  rewrite (extract_keys_from_ts_found _ _ _ Hfile) in Hrun'. injection Hrun' as <-.
  destruct (re_search_export content) as [obj_content|] eqn:Hsearch.
  - etrans; [apply size_list_to_set_le|]. etrans; [apply length_omap_le|].
    rewrite length_visits, !length_split_lines.
    apply re_search_export_Some in Hsearch as (before & s & -> & Hat).
    apply export_at_Some in Hat as (name & body & tail & _ & _ & -> & ->).
    rewrite !count_app. change (count 10 (py "{")) with 0%nat.
    change (count 10 (py "}")) with 0%nat. lia.
  - rewrite size_empty. lia.
Qed.

(** X5: one iteration never raises; the path it leaves is a prefix of the
    path it found, extended by one segment at most, whatever the number of
    open braces on the line; and a line that is not skipped and holds more
    close braces than the path has segments leaves the empty path. *)
Theorem X5_path_after_a_line (current_path : list str) (keys : gset str) (line : str) :
  ∃ path' keys',
    Detailed.extract_line (current_path, keys) line = Ok (path', keys')
    ∧ Strict.extract_line (current_path, keys) line = Ok (path', keys')
    ∧ (∃ key_name, path' `prefix_of` current_path ++ [key_name])
    ∧ keys ⊆ keys'
    ∧ (classify line ≠ Skipped → (length current_path < count 125 line)%nat → path' = []).
Proof.
  eexists _, _. split; [apply extract_line_classify|].
  split; [exact (eq_trans (strict_extract_line _ _) (extract_line_classify _ _ _))|].
  split; [|split].
  - unfold next_path. cbv zeta. destruct (classify line) as [|k|k|].
    + exists []. by apply prefix_app_r.
    + exists []. etrans; [apply prefix_take|]. by apply prefix_app_r.
    + exists k. apply prefix_take.
    + exists []. etrans; [apply prefix_take|]. by apply prefix_app_r.
  - destruct (leaf_key_of (current_path, line)); set_solver.
  - intros Hkind Hdeep. unfold next_path. cbv zeta.
    destruct (classify line) as [|k|k|]; [done| | |].
    + replace (length current_path - count 125 line)%nat with 0%nat by lia. done.
    + rewrite length_app. cbn [length].
      replace (length current_path + 1 - count 125 line)%nat with 0%nat by lia. done.
    + replace (length current_path - count 125 line)%nat with 0%nat by lia. done.
Qed.

Lemma for_each_app {A S} (body : S → A → result S) (xs ys : list A) (st st' : S) :
  for_each body xs st = Ok st' →
  for_each body (xs ++ ys) st = for_each body ys st'.
Proof.
  revert st. induction xs as [|x xs IH]; intros st; cbn [for_each app].
  - by intros [= ->].
  - destruct (body st x) as [st1|e]; cbn [result_bind]; [apply IH|done].
Qed.

(** X6: leaf lines without a close brace leave the nesting path alone, and
    each adds its key under that path. *)
Theorem X6_leaf_lines_keep_the_path
    (lines : list str) (current_path : list str) (keys : gset str) :
  Forall (fun line => (∃ key_name, classify line = Leaf key_name)
                      ∧ count 125 line = 0%nat) lines →
  for_each Detailed.extract_line lines (current_path, keys)
  = Ok (current_path,
        list_to_set (omap (fun line => leaf_key_of (current_path, line)) lines) ∪ keys).
Proof.
  intros Hall. revert keys. induction Hall as [|line lines [[k Hkind] Hclose] _ IH];
    intros keys.
  - cbn. f_equal. f_equal. set_solver.
  - cbn [for_each]. rewrite extract_line_classify. cbn [result_bind].
    assert (next_path current_path line = current_path) as ->.
    { unfold next_path. cbv zeta. rewrite Hkind, Hclose, Nat.sub_0_r. apply firstn_all. }
    rewrite IH. f_equal. f_equal. cbn [omap list_omap].
    destruct (leaf_key_of (current_path, line)); set_solver.
Qed.

(** X7: a block made of a line that opens an object named [key_name] (and
    holds no close brace), a body that starts and ends under
    [current_path ++ [key_name]], and a line with nothing but one close brace
    brings the path back to [current_path]; the keys are those of the body. *)
Theorem X7_block_restores_the_path
    (open_line close_line key_name : str) (body : list str)
    (current_path : list str) (keys keys' : gset str) :
  classify open_line = Opens key_name → count 125 open_line = 0%nat →
  classify close_line = Plain → count 125 close_line = 1%nat →
  for_each Detailed.extract_line body (current_path ++ [key_name], keys)
  = Ok (current_path ++ [key_name], keys') →
  for_each Detailed.extract_line ([open_line] ++ body ++ [close_line]) (current_path, keys)
  = Ok (current_path, keys').
Proof.
  intros Hopen Hopen0 Hclose Hclose1 Hbody.
  cbn [app for_each]. rewrite extract_line_classify. cbn [result_bind].
  assert (next_path current_path open_line = current_path ++ [key_name]) as ->.
  { unfold next_path. cbv zeta. rewrite Hopen, Hopen0, Nat.sub_0_r. apply firstn_all. }
  assert (leaf_key_of (current_path, open_line) = None) as ->.
  { unfold leaf_key_of. cbn [snd]. by rewrite Hopen. }
  rewrite (for_each_app _ _ _ _ _ Hbody). cbn [for_each].
  rewrite extract_line_classify. cbn [result_bind]. f_equal. f_equal.
  - unfold next_path. cbv zeta. rewrite Hclose, Hclose1, length_app. cbn [length].
    rewrite Nat.add_sub. apply take_app_length.
  - unfold leaf_key_of. cbn [snd]. by rewrite Hclose.
Qed.

Lemma re_match_key_lstrip (line : str) :
  tables_disjoint → re_match_key line = key_at (lstrip line).
Proof.
  intros Hdisjoint. unfold lstrip. induction line as [|c line IH]; [done|].
  cbn [re_match_key drop_while]. destruct (isspace c) eqn:Hc; [|done].
  rewrite IH. destruct (key_at (drop_while isspace line)); [done|].
  unfold key_at. cbn [take_while]. by rewrite (Hdisjoint c Hc).
Qed.

(** X8: with tables in which no white-space character is a word character, a
    line whose first character after the leading white space is not a word
    character (a quote, a bracket, a brace) is not matched by the key
    pattern: it adds no key and opens no object, only its close braces are
    counted. *)
Theorem X8_quoted_keys_are_passed_over
    (line rest : str) (c : N) (current_path : list str) (keys : gset str) :
  tables_disjoint → lstrip line = c :: rest → is_word c = false →
  re_match_key line = None
  ∧ ∃ path', Detailed.extract_line (current_path, keys) line = Ok (path', keys)
             ∧ Strict.extract_line (current_path, keys) line = Ok (path', keys)
             ∧ path' `prefix_of` current_path.
Proof.
  intros Hdisjoint Hstrip Hc.
  assert (re_match_key line = None) as Hmatch.
  { rewrite re_match_key_lstrip, Hstrip by done. unfold key_at. cbn [take_while].
    by rewrite Hc. }
  split; [done|]. exists (next_path current_path line).
  assert (Detailed.extract_line (current_path, keys) line
          = Ok (next_path current_path line, keys)) as Hline.
  { rewrite extract_line_classify. unfold leaf_key_of, classify. cbn [snd]. cbv zeta.
    rewrite Hmatch. by destruct (_ || _). }
  split; [done|]. split; [exact (eq_trans (strict_extract_line _ _) Hline)|].
  unfold next_path, classify. cbv zeta. rewrite Hmatch.
  destruct (_ || _); [done|apply prefix_take].
Qed.
End LineWalk.

(** * Further properties of the reports *)

Section Runs.
Context {U : UnicodeData}.

Lemma sum_list_zero_iff {A} (f : A → nat) (l : list A) :
  sum_list (f <$> l) = 0%nat ↔ ∀ x, x ∈ l → f x = 0%nat.
Proof.
  split; [|apply sum_list_zero].
  induction l as [|y l IH]; [by intros _ x ?%elem_of_nil|].
  rewrite fmap_cons. cbn [sum_list sum_list_with].
  intros [Hy Hl]%Nat.eq_add_0 x [->|Hin]%elem_of_cons; [done|by apply IH].
Qed.

Lemma loaded_reference (fs : filesystem) :
  default ∅ (loaded_keys fs languages ∅ !! py "en") = language_keys fs (py "en").
Proof. by rewrite (lookup_loaded_keys fs languages ∅ (py "en")) by (vm_compute; left). Qed.

Lemma loaded_language (fs : filesystem) (lang : str * str) :
  lang ∈ non_reference_languages →
  default ∅ (loaded_keys fs languages ∅ !! lang.1) = language_keys fs lang.1.
Proof.
  intros [_ Hin]%list_elem_of_filter.
  by rewrite (lookup_loaded_keys fs languages ∅ lang.1) by (by apply list_elem_of_fmap_2).
Qed.

Lemma detailed_main_result (fs : filesystem) :
  ∃ out, Detailed.main fs
         = Ok (if bool_decide (total_missing (loaded_keys fs languages ∅) = 0%nat)
               then 0%Z else 1%Z, out).
Proof.
  destruct (detailed_main_report fs) as [out ->].
  destruct (detailed_report_result (loaded_keys fs languages ∅) out
              (loaded_keys_complete fs)) as [body ->].
  case_bool_decide; eauto.
Qed.

Lemma total_missing_loaded_zero (fs : filesystem) :
  total_missing (loaded_keys fs languages ∅) = 0%nat
  ↔ ∀ lang, lang ∈ non_reference_languages →
            language_keys fs (py "en") ⊆ language_keys fs lang.1.
Proof.
  unfold total_missing. cbv zeta. rewrite sum_list_zero_iff, loaded_reference.
  split; intros Hall lang Hin; specialize (Hall lang Hin);
    rewrite (loaded_language fs lang Hin) in *; unfold missing_keys in *.
  - apply size_empty_inv in Hall. set_solver.
  - apply size_empty_iff. set_solver.
Qed.

Lemma detailed_main_zero_iff (fs : filesystem) :
  exit_status (Detailed.main fs) = 0%Z
  ↔ ∀ lang, lang ∈ non_reference_languages →
            language_keys fs (py "en") ⊆ language_keys fs lang.1.
Proof.
  rewrite <- total_missing_loaded_zero. destruct (detailed_main_result fs) as [out ->].
  cbn [exit_status]. by case_bool_decide.
Qed.

Lemma inconsistent_loaded (fs : filesystem) (lang : str * str) :
  lang ∈ non_reference_languages →
  inconsistent (loaded_keys fs languages ∅) lang
  ↔ language_keys fs lang.1 ≠ language_keys fs (py "en").
Proof.
  intros Hin. unfold inconsistent. cbv zeta.
  rewrite loaded_reference, (loaded_language fs lang Hin).
  unfold missing_keys, extra_keys. split.
  - intros [Hne|Hne] Heq; apply Hne; rewrite Heq; set_solver.
  - intros Hne.
    destruct (decide (language_keys fs (py "en") ∖ language_keys fs lang.1 = ∅)) as [Hm|];
      [|by left].
    destruct (decide (language_keys fs lang.1 ∖ language_keys fs (py "en") = ∅)) as [He|];
      [|by right].
    exfalso. apply Hne. apply set_eq. intros key.
    destruct (decide (key ∈ language_keys fs lang.1)),
             (decide (key ∈ language_keys fs (py "en"))); set_solver.
Qed.

Lemma strict_main_result (fs : filesystem) :
  ∃ out,
    ((∃ lang, lang ∈ non_reference_languages
              ∧ language_keys fs lang.1 ≠ language_keys fs (py "en"))
     ∧ Strict.main fs = Ok (1%Z, out))
    ∨ ((∀ lang, lang ∈ non_reference_languages →
                language_keys fs lang.1 = language_keys fs (py "en"))
       ∧ Strict.main fs = Ok (0%Z, out)).
Proof.
  destruct (strict_main_report fs) as [out ->].
  destruct (strict_report_result (loaded_keys fs languages ∅) out
              (loaded_keys_complete fs)) as [body [[(lang & Hin & Hbad) ->]|[Hgood ->]]];
    eexists.
  - left. split; [|done]. exists lang. split; [done|]. by apply inconsistent_loaded.
  - right. split; [|done]. intros lang Hin.
    destruct (decide (language_keys fs lang.1 = language_keys fs (py "en"))) as [|Hne];
      [done|].
    exfalso. apply Hgood. exists lang. split; [done|]. by apply inconsistent_loaded.
Qed.

Lemma strict_main_zero_iff (fs : filesystem) :
  exit_status (Strict.main fs) = 0%Z
  ↔ ∀ lang, lang ∈ non_reference_languages →
            language_keys fs lang.1 = language_keys fs (py "en").
Proof.
  destruct (strict_main_result fs) as [out [[(lang & Hin & Hne) ->]|[Hall ->]]];
    cbn [exit_status].
  - split; [done|]. intros Hall. by specialize (Hall lang Hin).
  - done.
Qed.

(** X9: on text files (each language file either absent or a readable UTF-8
    text, and an output that accepts the report) neither script raises
    [FileNotFoundError], [KeyError] or [IndexError].  The extractor raises
    [FileNotFoundError] when it is called on an absent path, but [main] calls
    it only on a path that exists; every code looked up in [all_keys] was
    stored by the first loop; and the pop is guarded.  So [main] returns,
    with status 0 or 1. *)
Theorem X9_main_returns_on_text_files (fs : filesystem) :
  (∀ file_path, fs !! file_path = None →
     Detailed.extract_keys_from_ts fs file_path = Raise FileNotFoundError
     ∧ Strict.extract_keys_from_ts fs file_path = Raise FileNotFoundError)
  ∧ (∃ out, Detailed.main fs = Ok (0%Z, out) ∨ Detailed.main fs = Ok (1%Z, out))
  ∧ (∃ out, Strict.main fs = Ok (0%Z, out) ∨ Strict.main fs = Ok (1%Z, out)).
Proof.
  split; [|split].
  - intros file_path Hnone.
    unfold Detailed.extract_keys_from_ts, Strict.extract_keys_from_ts, read_text.
    by rewrite Hnone.
  - destruct (detailed_main_result fs) as [out ->]. exists out. case_bool_decide; auto.
  - destruct (strict_main_result fs) as [out [[_ ->]|[_ ->]]]; exists out; auto.
Qed.



(** X12: on the same files, a run of the strict script that exits with 0
    implies that the exhaustive script exits with 0 as well. *)
Theorem X12_strict_pass_implies_exhaustive_pass (fs : filesystem) :
  exit_status (Strict.main fs) = 0%Z → exit_status (Detailed.main fs) = 0%Z.
Proof.
  rewrite strict_main_zero_iff, detailed_main_zero_iff.
  intros Hall lang Hin. by rewrite (Hall lang Hin).
Qed.

(** X13: when English has at least one key and the file of a compared
    language is absent, or holds no recognisable dictionary, that language
    counts as having no key and both scripts exit with 1. *)
Theorem X13_unusable_file_fails_the_run (fs : filesystem) (lang : str * str) :
  lang ∈ non_reference_languages →
  language_keys fs (py "en") ≠ ∅ →
  fs !! language_file lang.1 = None
  ∨ (∃ content, fs !! language_file lang.1 = Some content
                ∧ re_search_export content = None) →
  language_keys fs lang.1 = ∅
  ∧ exit_status (Detailed.main fs) = 1%Z
  ∧ exit_status (Strict.main fs) = 1%Z.
Proof.
  intros Hin Hen Hfile.
  assert (language_keys fs lang.1 = ∅) as Hempty.
  { destruct Hfile as [Hnone|(content & Hsome & Hsearch)].
    - by apply language_keys_absent.
    - unfold language_keys. rewrite (extract_keys_from_ts_found _ _ _ Hsome).
      by rewrite Hsearch. }
  split; [done|]. split.
  - destruct (detailed_main_result fs) as [out Hmain].
    case_bool_decide as Htotal; rewrite Hmain; [|done]. exfalso.
    pose proof (proj1 (total_missing_loaded_zero fs) Htotal lang Hin) as Hsub.
    rewrite Hempty in Hsub. apply Hen. set_solver.
  - destruct (strict_main_result fs) as [out [[_ ->]|[Hall _]]]; [done|]. exfalso.
    apply Hen. by rewrite <- (Hall lang Hin).
Qed.
End Runs.

Section Output.
Context {U : UnicodeData}.


(** X15: the last line each script prints agrees with its exit status: the
    message of success with 0; with 1 the total of missing keys, which is
    then positive, in the exhaustive script, and the recommendation in the
    strict script. *)
Theorem X15_verdict_line_matches_status (fs : filesystem) :
  (exit_status (Detailed.main fs) = 0%Z
   ∧ last (stdout (Detailed.main fs))
     = Some (check_mark ++ py " All languages are complete and consistent!")
   ∨ exit_status (Detailed.main fs) = 1%Z
     ∧ (0 < total_missing (loaded_keys fs languages ∅))%nat
     ∧ last (stdout (Detailed.main fs))
       = Some (cross_mark ++ py " Total missing keys across all languages: "
               ++ str_of_nat (total_missing (loaded_keys fs languages ∅))))
  ∧ (exit_status (Strict.main fs) = 0%Z
     ∧ last (stdout (Strict.main fs))
       = Some (check_mark ++ py " SUCCESS: All languages are consistent!")
     ∨ exit_status (Strict.main fs) = 1%Z
       ∧ last (stdout (Strict.main fs))
         = Some ([10] ++ py "Recommendation: Please add missing keys to incomplete language files.")).
Proof.
  split.
  - destruct (detailed_main_report fs) as [out ->].
    destruct (detailed_report_result (loaded_keys fs languages ∅) out
                (loaded_keys_complete fs)) as [body ->].
    case_bool_decide as Htotal; cbn [exit_status stdout]; rewrite last_snoc.
    + by left.
    + right. split; [done|]. split; [lia|done].
  - destruct (strict_main_report fs) as [out ->].
    destruct (strict_report_result (loaded_keys fs languages ∅) out
                (loaded_keys_complete fs)) as [body [[_ ->]|[_ ->]]];
      cbn [exit_status stdout].
    + right. split; [done|].
      change (body ++ [?a; ?b]) with (body ++ [a] ++ [b]).
      by rewrite !app_assoc, last_snoc.
    + left. by rewrite last_snoc.
Qed.


End Output.

Section Layout.
Context {U : UnicodeData}.

Lemma extract_line_skipped (st : list str * gset str) (line : str) :
  is_skipped line = true → Detailed.extract_line st line = Ok st.
Proof.
  destruct st as [current_path keys]. unfold is_skipped, Detailed.extract_line.
  by intros ->.
Qed.

(** X17: blank lines and comment lines play no role, even when they hold
    keys or braces: the walk over the lines gives what the walk over the
    lines without them gives. *)
Theorem X17_blank_and_comment_lines_are_inert (lines : list str) (st : list str * gset str) :
  for_each Detailed.extract_line lines st
  = for_each Detailed.extract_line (List.filter (fun line => negb (is_skipped line)) lines) st
  ∧ for_each Strict.extract_line lines st
    = for_each Detailed.extract_line
        (List.filter (fun line => negb (is_skipped line)) lines) st.
Proof.
  assert (for_each Detailed.extract_line lines st
          = for_each Detailed.extract_line
              (List.filter (fun line => negb (is_skipped line)) lines) st) as Hwalk.
  { revert st. induction lines as [|line lines IH]; intros st; [done|].
    cbn [List.filter]. destruct (is_skipped line) eqn:Hskip; cbn [negb for_each].
    - rewrite (extract_line_skipped _ _ Hskip). cbn [result_bind]. apply IH.
    - destruct (Detailed.extract_line st line); cbn [result_bind]; [apply IH|done]. }
  split; [done|]. exact (eq_trans (strict_for_each _ _) Hwalk).
Qed.

Lemma drop_while_blank (blank s : str) :
  Forall (fun c => isspace c = true) blank →
  drop_while isspace (blank ++ s) = drop_while isspace s.
Proof.
  intros Hblank. induction Hblank as [|c blank Hc _ IH]; [done|].
  cbn [app drop_while]. by rewrite Hc.
Qed.

Lemma count_blank (blank : str) :
  Forall (fun c => isspace c = true) blank → count 125 blank = 0%nat.
Proof.
  intros Hblank. induction Hblank as [|c blank Hc _ IH]; [done|].
  cbn [count]. destruct (N.eqb_spec c 125) as [->|_]; [done|apply IH].
Qed.

(** X18: with tables in which no white-space character is a word character,
    the indentation of a line plays no role: white space put in front of a
    line changes nothing in what the loop does with it. *)
Theorem X18_indentation_is_irrelevant
    (blank line : str) (st : list str * gset str) :
  tables_disjoint → Forall (fun c => isspace c = true) blank →
  Detailed.extract_line st (blank ++ line) = Detailed.extract_line st line
  ∧ Strict.extract_line st (blank ++ line) = Strict.extract_line st line.
Proof.
  intros Hdisjoint Hblank.
  assert (Detailed.extract_line st (blank ++ line) = Detailed.extract_line st line)
    as Hline.
  { destruct st as [current_path keys]. unfold Detailed.extract_line.
    assert (strip (blank ++ line) = strip line) as ->.
    { unfold strip, lstrip. by rewrite drop_while_blank. }
    assert (re_match_key (blank ++ line) = re_match_key line) as ->.
    { rewrite !re_match_key_lstrip by done. unfold lstrip. by rewrite drop_while_blank. }
    by rewrite count_app, count_blank. }
  split; [done|].
  exact (eq_trans (strict_extract_line _ _)
           (eq_trans Hline (eq_sym (strict_extract_line _ _)))).
Qed.
End Layout.

(** ** The further properties on concrete inputs *)

Section ConcreteFurther.
#[local] Existing Instance sample_unicode.

Lemma sample_unicode_disjoint : tables_disjoint.
Proof.
  intros c. unfold isspace, is_word, isalnum. cbn [uni_isspace uni_isalnum sample_unicode].
  repeat match goal with
         | |- context [N.ltb ?a ?b] => destruct (N.ltb_spec a b)
         | |- context [N.leb ?a ?b] => destruct (N.leb_spec a b)
         | |- context [N.eqb ?a ?b] => destruct (N.eqb_spec a b)
         end; cbn [andb orb negb]; try done; lia.
Qed.

Lemma X1_witness :
  re_search_export
    (py "export const " ++ py "de" ++ py ": TranslationDict = {" ++ ([10] ++ scenario1 ++ [10])
     ++ py "};" ++ ([10] ++ py "export default de;"))
  = Some (py "{" ++ ([10] ++ scenario1 ++ [10]) ++ py "}").
Proof.
  apply (proj2 X1_literal_runs_to_last_close (py "de") ([10] ++ scenario1 ++ [10])
           ([10] ++ py "export default de;")).
  - split; [vm_compute; discriminate|]. repeat constructor.
  - apply dotall_then_close_None. vm_compute. reflexivity.
Defined.

Lemma X2_witness :
  Detailed.extract_keys_from_ts {[ py "en.ts" := unterminated ]} (py "en.ts") = Ok ∅
  ∧ Strict.extract_keys_from_ts {[ py "en.ts" := unterminated ]} (py "en.ts") = Ok ∅.
Proof.
  apply (X2_no_declaration_no_keys {[ py "en.ts" := unterminated ]} (py "en.ts") unterminated).
  - vm_compute. reflexivity.
  - right. right. apply dotall_then_close_None. vm_compute. reflexivity.
Defined.

Lemma X3_witness :
  py "menu.file" ≠ [] ∧ Forall (fun c => is_word c = true ∨ c = 46) (py "menu.file").
Proof.
  refine (proj2 (X3_keys_are_dotted_words
                   {[ py "en.ts" := scenario1_declared ]} (py "en.ts") scenario1_keys
                   (py "menu.file") _ _)).
  - left. vm_compute. reflexivity.
  - apply (bool_decide_unpack _). vm_compute. exact I.
Defined.

Lemma X4_witness :
  (size scenario1_keys ≤ length (split_lines scenario1_declared))%nat.
Proof.
  refine (X4_no_more_keys_than_lines
            {[ py "en.ts" := scenario1_declared ]} (py "en.ts") scenario1_declared
            scenario1_keys _ _).
  - vm_compute. reflexivity.
  - left. vm_compute. reflexivity.
Defined.

Lemma X6_witness :
  for_each Detailed.extract_line [py "  file: 'File',"; py "  edit: 'Edit',"] ([py "menu"], ∅)
  = Ok ([py "menu"],
        list_to_set (omap (fun line => leaf_key_of ([py "menu"], line))
                       [py "  file: 'File',"; py "  edit: 'Edit',"]) ∪ ∅).
Proof.
  apply (X6_leaf_lines_keep_the_path [py "  file: 'File',"; py "  edit: 'Edit',"]
           [py "menu"] ∅).
  repeat constructor.
  - exists (py "file"). vm_compute. reflexivity.
  - exists (py "edit"). vm_compute. reflexivity.
Defined.

Lemma X7_witness :
  for_each Detailed.extract_line
    ([py "menu: {"] ++ [py "  file: 'File',"; py "  edit: 'Edit',"] ++ [py "},"]) ([], ∅)
  = Ok ([], {[ py "menu.edit"; py "menu.file" ]}).
Proof.
  apply (X7_block_restores_the_path (py "menu: {") (py "},") (py "menu")
           [py "  file: 'File',"; py "  edit: 'Edit',"] [] ∅
           {[ py "menu.edit"; py "menu.file" ]}); vm_compute; reflexivity.
Defined.

Lemma X8_witness :
  re_match_key (py "  'my-key': 'value',") = None.
Proof.
  refine (proj1 (X8_quoted_keys_are_passed_over
                   (py "  'my-key': 'value',") (py "my-key': 'value',") 39 [] ∅ _ _ _)).
  - exact sample_unicode_disjoint.
  - vm_compute. reflexivity.
  - vm_compute. reflexivity.
Defined.

Lemma X9_witness :
  Detailed.extract_keys_from_ts english_only (language_file (py "de"))
  = Raise FileNotFoundError
  ∧ ∃ out, Detailed.main english_only = Ok (0%Z, out)
           ∨ Detailed.main english_only = Ok (1%Z, out).
Proof.
  split.
  - refine (proj1 (proj1 (X9_main_returns_on_text_files english_only)
                     (language_file (py "de")) _)).
    vm_compute. reflexivity.
  - exact (proj1 (proj2 (X9_main_returns_on_text_files english_only))).
Defined.

Lemma X12_witness : exit_status (Detailed.main ∅) = 0%Z.
Proof. apply (X12_strict_pass_implies_exhaustive_pass ∅). vm_compute. reflexivity. Defined.

Lemma X13_witness :
  exit_status (Detailed.main english_only) = 1%Z
  ∧ exit_status (Strict.main english_only) = 1%Z.
Proof.
  refine (proj2 (X13_unusable_file_fails_the_run english_only (py "de", py "German") _ _ _)).
  - apply (bool_decide_unpack _). vm_compute. exact I.
  - apply (bool_decide_unpack _). vm_compute. exact I.
  - left. vm_compute. reflexivity.
Defined.


Lemma X18_witness :
  Detailed.extract_line ([py "menu"], ∅) (py "      " ++ py "file: 'File',")
  = Detailed.extract_line ([py "menu"], ∅) (py "file: 'File',").
Proof.
  refine (proj1 (X18_indentation_is_irrelevant (py "      ") (py "file: 'File',")
                   ([py "menu"], ∅) _ _)).
  - exact sample_unicode_disjoint.
  - repeat constructor.
Defined.
End ConcreteFurther.
